(** * ezgl: the rectangle class, the renderer's culling and transform pipeline,
      and the canvas

    A shallow embedding of [include/ezgl/rectangle.hpp], [src/graphics.cpp]
    and [src/canvas.cpp].  C++ [double] values are IEEE 754 binary64 numbers,
    taken from the Standard Library's [SpecFloat] (precision 53, maximal
    exponent 1024), so NaN, the infinities, signed zeros and rounding are all
    part of the model.  A drawing context is the list of calls the renderer
    has issued on it; the windowing state of the canvas is the set of live
    surfaces and contexts together with the calls made. *)

From Stdlib Require Import ZArith Bool List String Lia.
From Stdlib Require Import SpecFloat.
Import ListNotations.

Local Open Scope Z_scope.

(** ** IEEE 754 binary64 *)

Module Binary64.

Definition prec : Z := 53.
Definition emax : Z := 1024.

Definition double : Type := spec_float.

Definition add : double -> double -> double := SFadd prec emax.
Definition sub : double -> double -> double := SFsub prec emax.
Definition mul : double -> double -> double := SFmul prec emax.
Definition div : double -> double -> double := SFdiv prec emax.
Definition opp : double -> double := SFopp.
Definition abs : double -> double := SFabs.

(** The C++ comparison operators; every one of them is false on NaN. *)
Definition ltb : double -> double -> bool := SFltb.
Definition leb : double -> double -> bool := SFleb.
Definition gtb (a b : double) : bool := SFltb b a.
Definition eqb : double -> double -> bool := SFeqb.
Definition neqb (a b : double) : bool := negb (SFeqb a b).

Definition is_nan (a : double) : bool :=
  match a with S754_nan => true | _ => false end.

Definition is_zero (a : double) : bool :=
  match a with S754_zero _ => true | _ => false end.

(** A value of the inductive type is a binary64 number when its mantissa
    and exponent are in canonical form. *)
Definition valid (a : double) : bool := valid_binary prec emax a.

(** Conversion of an integer to [double] (exact below 2^53). *)
Definition of_Z (n : Z) : double := binary_normalize prec emax n 0 false.

Definition pos_zero : double := S754_zero false.
Definition neg_zero : double := S754_zero true.
Definition pos_inf : double := S754_infinity false.
Definition neg_inf : double := S754_infinity true.
Definition nan : double := S754_nan.

Definition one : double := Eval vm_compute in of_Z 1.
Definition two : double := Eval vm_compute in of_Z 2.
Definition d180 : double := Eval vm_compute in of_Z 180.
Definition d255 : double := Eval vm_compute in of_Z 255.
(** The literal [0.5]. *)
Definition half : double := S754_finite false 4503599627370496 (-53).
(** [M_PI] of <cmath>: 0x400921FB54442D18. *)
Definition M_PI : double := S754_finite false 7074237752028440 (-51).
(** [DBL_MAX] of <cfloat>: (2^53 - 1) * 2^971. *)
Definition DBL_MAX : double := S754_finite false 9007199254740991 971.

(** [std::min(a, b)] is [(b < a) ? b : a] and [std::max(a, b)] is
    [(a < b) ? b : a]. *)
Definition std_min (a b : double) : double := if ltb b a then b else a.
Definition std_max (a b : double) : double := if ltb a b then b else a.

End Binary64.

Declare Scope dbl_scope.
Delimit Scope dbl_scope with dbl.
Bind Scope dbl_scope with Binary64.double.
Infix "+" := Binary64.add : dbl_scope.
Infix "-" := Binary64.sub : dbl_scope.
Infix "*" := Binary64.mul : dbl_scope.
Infix "/" := Binary64.div : dbl_scope.
Notation "- a" := (Binary64.opp a) : dbl_scope.
Infix "<?" := Binary64.ltb : dbl_scope.
Infix "<=?" := Binary64.leb : dbl_scope.
Infix ">?" := Binary64.gtb : dbl_scope.
Infix "==?" := Binary64.eqb (at level 70) : dbl_scope.

Import Binary64.

(** ** point.hpp *)

Record point2d : Type := mk_point { x : double; y : double }.

(** Modelled from the spec: point.hpp is not under src/; [point2d] is a pair
    of doubles whose [offset] and arithmetic operators act on each coordinate
    and whose [operator==] compares both coordinates. *)
Definition point_offset (p : point2d) (x_offset y_offset : double) : point2d :=
  mk_point (x p + x_offset) (y p + y_offset).

Definition point_add (lhs rhs : point2d) : point2d :=
  mk_point (x lhs + x rhs) (y lhs + y rhs).

Definition point_sub (lhs rhs : point2d) : point2d :=
  mk_point (x lhs - x rhs) (y lhs - y rhs).

Definition point_mul (lhs rhs : point2d) : point2d :=
  mk_point (x lhs * x rhs) (y lhs * y rhs).

Definition point_eqb (lhs rhs : point2d) : bool :=
  (x lhs ==? x rhs)%dbl && (y lhs ==? y rhs)%dbl.

(** ** rectangle.hpp *)

(** Two diagonally opposite points, stored in the order they were given. *)
Record rectangle : Type := mk_rect { m_first : point2d; m_second : point2d }.

(** [rectangle(point2d origin, point2d top_right)] is [mk_rect]. *)
Definition rectangle_of_points (origin top_right : point2d) : rectangle :=
  mk_rect origin top_right.

(** [rectangle(point2d origin, double width, double height)]. *)
Definition rectangle_of_size (origin : point2d) (w h : double) : rectangle :=
  mk_rect origin (point_offset origin w h).

Definition left (r : rectangle) : double := std_min (x (m_first r)) (x (m_second r)).
Definition right (r : rectangle) : double := std_max (x (m_first r)) (x (m_second r)).
Definition bottom (r : rectangle) : double := std_min (y (m_first r)) (y (m_second r)).
Definition top (r : rectangle) : double := std_max (y (m_first r)) (y (m_second r)).

Definition contains (r : rectangle) (px py : double) : bool :=
  if (px <? left r)%dbl || (right r <? px)%dbl || (py <? bottom r)%dbl || (top r <? py)%dbl
  then false
  else true.

Definition contains_point (r : rectangle) (point : point2d) : bool :=
  contains r (x point) (y point).

Definition offset (r : rectangle) (x_offset y_offset : double) : rectangle :=
  mk_rect (point_offset (m_first r) x_offset y_offset)
          (point_offset (m_second r) x_offset y_offset).

(** [operator==] and [operator!=]. *)
Definition rectangle_eqb (r rhs : rectangle) : bool :=
  point_eqb (m_first r) (m_first rhs) && point_eqb (m_second r) (m_second rhs).

Definition rectangle_neqb (r rhs : rectangle) : bool := negb (rectangle_eqb rhs r).

Definition width (r : rectangle) : double := right r - left r.
Definition height (r : rectangle) : double := top r - bottom r.
Definition area (r : rectangle) : double := width r * height r.
Definition centre_x (r : rectangle) : double := (right r + left r) * half.
Definition centre_y (r : rectangle) : double := (top r + bottom r) * half.
Definition centre (r : rectangle) : point2d := mk_point (centre_x r) (centre_y r).

(** Modelled from the spec: graphics.cpp calls [bottom_left()] and
    [top_right()], which the rectangle.hpp under src/ does not declare; they
    are the corners built from [left], [bottom], [right] and [top]. *)
Definition bottom_left (r : rectangle) : point2d := mk_point (left r) (bottom r).
Definition top_right (r : rectangle) : point2d := mk_point (right r) (top r).

(** ** The external drawing and windowing interfaces

    What graphics.cpp uses of Cairo, Xlib and <cmath>.  A drawing context is
    the list of calls issued on it, oldest first; what the libraries compute
    for the renderer is a record of functions. *)

Module Cairo.

Definition cairo_status_t : Type := Z.
Definition CAIRO_STATUS_SUCCESS : cairo_status_t := 0.
Definition CAIRO_STATUS_NO_MEMORY : cairo_status_t := 1.
Definition CAIRO_STATUS_READ_ERROR : cairo_status_t := 10.
Definition CAIRO_STATUS_FILE_NOT_FOUND : cairo_status_t := 18.

(** What the renderer reads of a [cairo_surface_t]: its status and, for an
    image surface, its size in pixels. *)
Record cairo_surface_t : Type := mk_surface {
  cairo_surface_status : cairo_status_t;
  cairo_image_surface_get_width : Z;
  cairo_image_surface_get_height : Z
}.

Record cairo_text_extents_t : Type := mk_text_extents {
  x_bearing : double;
  y_bearing : double;
  width : double;
  height : double;
  x_advance : double;
  y_advance : double
}.

Record cairo_font_extents_t : Type := mk_font_extents {
  ascent : double;
  descent : double;
  font_height : double;
  max_x_advance : double;
  max_y_advance : double
}.

(** The calls that change a [cairo_t] or draw with it. *)
Inductive call : Type :=
| cairo_set_source_rgba (red green blue alpha : double)
| cairo_set_line_cap (cap : Z)
| cairo_set_dash (dashes : list double) (num_dashes : Z) (dash_offset : double)
| cairo_set_line_width (w : double)
| cairo_set_font_size (size : double)
| cairo_select_font_face (family : string) (slant weight : Z)
| cairo_move_to (px py : double)
| cairo_line_to (px py : double)
| cairo_close_path
| cairo_new_path
| cairo_stroke
| cairo_fill
| cairo_paint
| cairo_save
| cairo_restore
| cairo_scale (sx sy : double)
| cairo_rotate (angle : double)
| cairo_arc (xc yc radius angle1 angle2 : double)
| cairo_arc_negative (xc yc radius angle1 angle2 : double)
| cairo_show_text (utf8 : string)
| cairo_set_source_surface (surface : cairo_surface_t) (px py : double).

Definition cairo_t : Type := list call.

End Cairo.

Module Xlib.

(** The Xlib calls of the EZGL_USE_X11 build.  The integer parameters of
    the C prototypes are filled from [double] expressions; a call is
    recorded with those doubles, before their conversion.  The line width of
    [XSetLineAttributes] is an [unsigned int] filled from an [int]; it is
    recorded as Xlib receives it, after the conversion. *)
Inductive call : Type :=
| XSetForeground (xcolor : Z)
| XSetLineAttributes (line_width : Z) (dashed round_cap : bool)
| XDrawLine (x1 y1 x2 y2 : double)
| XFillRectangle (px py w h : double)
| XDrawRectangle (px py w h : double)
| XFillPolygon (points : list (double * double)) (npoints : nat)
| XFillArc (px py w h angle1 angle2 : double)
| XDrawArc (px py w h angle1 angle2 : double).

Definition GC : Type := list call.

End Xlib.

(** What the libraries answer: text and font extents depend on the state of
    the context, a PNG load on the file system, and [cos] and [sin] are those
    of <cmath>. *)
Record externals : Type := mk_externals {
  cairo_text_extents : Cairo.cairo_t -> string -> Cairo.cairo_text_extents_t;
  cairo_font_extents : Cairo.cairo_t -> Cairo.cairo_font_extents_t;
  cairo_image_surface_create_from_png : string -> Cairo.cairo_surface_t;
  cos : double -> double;
  sin : double -> double
}.

(** ** graphics.hpp and camera.hpp *)

Inductive t_coordinate_system : Type := WORLD | SCREEN.

Definition t_coordinate_system_eqb (a b : t_coordinate_system) : bool :=
  match a, b with
  | WORLD, WORLD | SCREEN, SCREEN => true
  | _, _ => false
  end.

Inductive line_cap : Type := butt | round.
Inductive line_dash : Type := none | asymmetric_5_3.
Inductive font_slant : Type := slant_normal | slant_italic | slant_oblique.
Inductive font_weight : Type := weight_normal | weight_bold.

(** The enumerators have the values of the Cairo enumerations they are cast to. *)
Definition line_cap_value (cap : line_cap) : Z :=
  match cap with butt => 0 | round => 1 end.
Definition font_slant_value (s : font_slant) : Z :=
  match s with slant_normal => 0 | slant_italic => 1 | slant_oblique => 2 end.
Definition font_weight_value (w : font_weight) : Z :=
  match w with weight_normal => 0 | weight_bold => 1 end.

(** A colour: four [uint_fast8_t] components. *)
Record color : Type := mk_color { red : Z; green : Z; blue : Z; alpha : Z }.

(** Modelled from the spec: camera.hpp is not under src/; the renderer only
    reads the world rectangle, the screen rectangle and the world scale
    factor of its camera. *)
Record camera : Type := mk_camera {
  get_world : rectangle;
  get_screen : rectangle;
  get_world_scale_factor : point2d
}.

(** The members of the EZGL_USE_X11 build. *)
Record x11_members : Type := mk_x11 {
  x11_context : Xlib.GC;
  transparency_flag : bool;
  current_line_width : Z;
  current_line_cap : line_cap;
  current_line_dash : line_dash
}.

(** The renderer.  [x11] is [None] in a build without EZGL_USE_X11. *)
Record renderer : Type := mk_renderer {
  m_cairo : Cairo.cairo_t;
  m_transform : point2d -> point2d;
  m_camera : camera;
  rotation_angle : double;
  current_coordinate_system : t_coordinate_system;
  x11 : option x11_members
}.

(** The members that the constructor's initialiser list leaves out keep
    their default member initialisers, which graphics.hpp (not under src/)
    gives; they are an argument of the constructor here. *)
Record member_initialisers : Type := mk_initialisers {
  initial_coordinate_system : t_coordinate_system;
  initial_x11 : option x11_members
}.

(** ** graphics.cpp *)

(** [renderer::renderer]: the rotation angle starts at 0 and, in the X11
    build, the graphics context is a fresh one from [XCreateGC]. *)
Definition renderer_new (init : member_initialisers) (cairo : Cairo.cairo_t)
    (transform : point2d -> point2d) (cam : camera) : renderer :=
  mk_renderer cairo transform cam pos_zero (initial_coordinate_system init)
    (match initial_x11 init with
     | Some xs =>
         Some (mk_x11 [] (transparency_flag xs) (current_line_width xs)
                 (current_line_cap xs) (current_line_dash xs))
     | None => None
     end).

(** Issue calls on [m_cairo]. *)
Definition on_cairo (calls : list Cairo.call) (r : renderer) : renderer :=
  mk_renderer (m_cairo r ++ calls) (m_transform r) (m_camera r) (rotation_angle r)
    (current_coordinate_system r) (x11 r).

(** Replace the X11 members (only reached in the X11 build). *)
Definition with_x11 (xs : x11_members) (r : renderer) : renderer :=
  mk_renderer (m_cairo r) (m_transform r) (m_camera r) (rotation_angle r)
    (current_coordinate_system r) (Some xs).

(** Issue calls on [x11_context]. *)
Definition on_x11 (calls : list Xlib.call) (r : renderer) : renderer :=
  match x11 r with
  | Some xs =>
      with_x11 (mk_x11 (x11_context xs ++ calls) (transparency_flag xs)
                  (current_line_width xs) (current_line_cap xs) (current_line_dash xs)) r
  | None => r
  end.

(** The guard [#ifdef EZGL_USE_X11 if(!transparency_flag)] of the drawing
    functions. *)
Definition x11_opaque (r : renderer) : bool :=
  match x11 r with
  | Some xs => negb (transparency_flag xs)
  | None => false
  end.


Definition get_visible_world (r : renderer) : rectangle :=
  let world := get_world (m_camera r) in
  let screen := get_screen (m_camera r) in
  let margin := point_mul (bottom_left screen) (get_world_scale_factor (m_camera r)) in
  rectangle_of_points (point_sub (bottom_left world) margin)
                      (point_add (top_right world) margin).

Definition rectangle_off_screen (r : renderer) (rect : rectangle) : bool :=
  if t_coordinate_system_eqb (current_coordinate_system r) SCREEN then false else
  let visible := get_visible_world r in
  if (right rect <? left visible)%dbl then true else
  if (left rect >? right visible)%dbl then true else
  if (top rect <? bottom visible)%dbl then true else
  if (bottom rect >? top visible)%dbl then true else
  false.

(** The conversion of an [int] argument to an [unsigned int] parameter
    (both 32 bits wide). *)
Definition to_unsigned_int (n : Z) : Z := n mod 4294967296.

Definition x11_line_attributes (xs : x11_members) : Xlib.call :=
  Xlib.XSetLineAttributes (to_unsigned_int (current_line_width xs))
    (match current_line_dash xs with none => false | asymmetric_5_3 => true end)
    (match current_line_cap xs with butt => false | round => true end).

(** [set_color(red, green, blue, alpha)]. *)
Definition set_color_rgba (r : renderer) (red green blue alpha : Z) : renderer :=
  let r1 :=
    on_cairo [Cairo.cairo_set_source_rgba (of_Z red / d255) (of_Z green / d255)
                (of_Z blue / d255) (of_Z alpha / d255)] r in
  match x11 r1 with
  | Some xs =>
      let flag := negb (alpha =? 255) in
      let xcolor := 0 in
      let xcolor :=
        Z.lor xcolor
          (Z.land (Z.lor (Z.lor (Z.shiftl red 16) (Z.shiftl red 8)) red) 16711680) in
      let xcolor :=
        Z.lor xcolor
          (Z.land (Z.lor (Z.lor (Z.shiftl green 16) (Z.shiftl green 8)) green) 65280) in
      let xcolor :=
        Z.lor xcolor
          (Z.land (Z.lor (Z.lor (Z.shiftl blue 16) (Z.shiftl blue 8)) blue) 255) in
      let xcolor := Z.lor xcolor 4278190080 in
      with_x11 (mk_x11 (x11_context xs ++ [Xlib.XSetForeground xcolor]) flag
                  (current_line_width xs) (current_line_cap xs) (current_line_dash xs)) r1
  | None => r1
  end.

(** [set_color(color c)] and [set_color(color c, uint_fast8_t alpha)]. *)
Definition set_color (r : renderer) (c : color) : renderer :=
  set_color_rgba r (red c) (green c) (blue c) (alpha c).

Definition set_color_alpha (r : renderer) (c : color) (alpha : Z) : renderer :=
  set_color_rgba r (red c) (green c) (blue c) alpha.

Definition set_line_cap (r : renderer) (cap : line_cap) : renderer :=
  let r1 := on_cairo [Cairo.cairo_set_line_cap (line_cap_value cap)] r in
  match x11 r1 with
  | Some xs =>
      let xs1 := mk_x11 (x11_context xs) (transparency_flag xs) (current_line_width xs)
                   cap (current_line_dash xs) in
      on_x11 [x11_line_attributes xs1] (with_x11 xs1 r1)
  | None => r1
  end.

Definition set_line_dash (r : renderer) (dash : line_dash) : renderer :=
  let r1 :=
    match dash with
    | none => on_cairo [Cairo.cairo_set_dash [] 0 pos_zero] r
    | asymmetric_5_3 =>
        on_cairo [Cairo.cairo_set_dash [of_Z 5; of_Z 3] 2 pos_zero] r
    end in
  match x11 r1 with
  | Some xs =>
      let xs1 := mk_x11 (x11_context xs) (transparency_flag xs) (current_line_width xs)
                   (current_line_cap xs) dash in
      on_x11 [x11_line_attributes xs1] (with_x11 xs1 r1)
  | None => r1
  end.

Definition set_line_width (r : renderer) (w : Z) : renderer :=
  let r1 := on_cairo [Cairo.cairo_set_line_width (of_Z w)] r in
  match x11 r1 with
  | Some xs =>
      let xs1 := mk_x11 (x11_context xs) (transparency_flag xs) w
                   (current_line_cap xs) (current_line_dash xs) in
      on_x11 [x11_line_attributes xs1] (with_x11 xs1 r1)
  | None => r1
  end.

Definition set_font_size (r : renderer) (new_size : double) : renderer :=
  on_cairo [Cairo.cairo_set_font_size new_size] r.

Definition format_font (r : renderer) (family : string) (slant : font_slant)
    (weight : font_weight) : renderer :=
  on_cairo [Cairo.cairo_select_font_face family (font_slant_value slant)
              (font_weight_value weight)] r.

Definition format_font_size (r : renderer) (family : string) (slant : font_slant)
    (weight : font_weight) (new_size : double) : renderer :=
  format_font (set_font_size r new_size) family slant weight.

Definition set_text_rotation (r : renderer) (degrees : double) : renderer :=
  mk_renderer (m_cairo r) (m_transform r) (m_camera r)
    ((- degrees) * M_PI / d180)%dbl
    (current_coordinate_system r) (x11 r).

Definition draw_line (r : renderer) (start end_ : point2d) : renderer :=
  if rectangle_off_screen r (rectangle_of_points start end_) then r else
  let world := t_coordinate_system_eqb (current_coordinate_system r) WORLD in
  let start := if world then m_transform r start else start in
  let end_ := if world then m_transform r end_ else end_ in
  if x11_opaque r then
    on_x11 [Xlib.XDrawLine (x start) (y start) (x end_) (y end_)] r
  else
    on_cairo [Cairo.cairo_move_to (x start) (y start);
              Cairo.cairo_line_to (x end_) (y end_);
              Cairo.cairo_stroke] r.

Definition draw_rectangle_path (r : renderer) (start end_ : point2d)
    (fill_flag : bool) : renderer :=
  let world := t_coordinate_system_eqb (current_coordinate_system r) WORLD in
  let start := if world then m_transform r start else start in
  let end_ := if world then m_transform r end_ else end_ in
  if x11_opaque r then
    if fill_flag then
      on_x11 [Xlib.XFillRectangle (std_min (x start) (x end_)) (std_min (y start) (y end_))
                (abs (x end_ - x start)) (abs (y end_ - y start))] r
    else
      on_x11 [Xlib.XDrawRectangle (std_min (x start) (x end_)) (std_min (y start) (y end_))
                (abs (x end_ - x start)) (abs (y end_ - y start))] r
  else
    let r1 :=
      on_cairo [Cairo.cairo_move_to (x start) (y start);
                Cairo.cairo_line_to (x start) (y end_);
                Cairo.cairo_line_to (x end_) (y end_);
                Cairo.cairo_line_to (x end_) (y start);
                Cairo.cairo_close_path] r in
    if fill_flag then on_cairo [Cairo.cairo_fill] r1
    else on_cairo [Cairo.cairo_stroke] r1.

(** [draw_rectangle(point2d start, point2d end)]. *)
Definition draw_rectangle (r : renderer) (start end_ : point2d) : renderer :=
  if rectangle_off_screen r (rectangle_of_points start end_) then r else
  draw_rectangle_path r start end_ false.

(** [draw_rectangle(point2d start, double width, double height)]. *)
Definition draw_rectangle_size (r : renderer) (start : point2d) (w h : double) : renderer :=
  if rectangle_off_screen r
       (rectangle_of_points start (mk_point (x start + w) (y start + h)))
  then r else
  draw_rectangle_path r start (mk_point (x start + w) (y start + h)) false.

(** [draw_rectangle(rectangle r)]. *)
Definition draw_rectangle_rect (r : renderer) (rect : rectangle) : renderer :=
  if rectangle_off_screen r
       (rectangle_of_points (mk_point (left rect) (bottom rect))
                            (mk_point (right rect) (top rect)))
  then r else
  draw_rectangle_path r (mk_point (left rect) (bottom rect))
    (mk_point (right rect) (top rect)) false.

Definition fill_rectangle (r : renderer) (start end_ : point2d) : renderer :=
  if rectangle_off_screen r (rectangle_of_points start end_) then r else
  draw_rectangle_path r start end_ true.

Definition fill_rectangle_size (r : renderer) (start : point2d) (w h : double) : renderer :=
  if rectangle_off_screen r
       (rectangle_of_points start (mk_point (x start + w) (y start + h)))
  then r else
  draw_rectangle_path r start (mk_point (x start + w) (y start + h)) true.

Definition fill_rectangle_rect (r : renderer) (rect : rectangle) : renderer :=
  if rectangle_off_screen r
       (rectangle_of_points (mk_point (left rect) (bottom rect))
                            (mk_point (right rect) (top rect)))
  then r else
  draw_rectangle_path r (mk_point (left rect) (bottom rect))
    (mk_point (right rect) (top rect)) true.

(** The containing rectangle that [fill_poly] computes for its clip test:
    the loop over [points[1..]] starting from [points[0]]. *)
Definition poly_x_min (p0 : point2d) (rest : list point2d) : double :=
  fold_left (fun acc p => std_min acc (x p)) rest (x p0).
Definition poly_x_max (p0 : point2d) (rest : list point2d) : double :=
  fold_left (fun acc p => std_max acc (x p)) rest (x p0).
Definition poly_y_min (p0 : point2d) (rest : list point2d) : double :=
  fold_left (fun acc p => std_min acc (y p)) rest (y p0).
Definition poly_y_max (p0 : point2d) (rest : list point2d) : double :=
  fold_left (fun acc p => std_max acc (y p)) rest (y p0).

Definition poly_clip_rectangle (p0 : point2d) (rest : list point2d) : rectangle :=
  rectangle_of_points (mk_point (poly_x_min p0 rest) (poly_y_min p0 rest))
                      (mk_point (poly_x_max p0 rest) (poly_y_max p0 rest)).

(** [fill_poly]; [None] is the failure of [assert(points.size() > 1)]. *)
Definition fill_poly (r : renderer) (points : list point2d) : option renderer :=
  match points with
  | [] | [_] => None
  | p0 :: rest =>
      if rectangle_off_screen r (poly_clip_rectangle p0 rest) then Some r else
      let world := t_coordinate_system_eqb (current_coordinate_system r) WORLD in
      if x11_opaque r then
        let trans_points :=
          map (fun p =>
                 let next_point := if world then m_transform r p else p in
                 (x next_point, y next_point)) points in
        Some (on_x11 [Xlib.XFillPolygon trans_points (List.length points)] r)
      else
        let next_point := if world then m_transform r p0 else p0 in
        let r1 := on_cairo [Cairo.cairo_move_to (x next_point) (y next_point)] r in
        let r2 :=
          fold_left
            (fun acc p =>
               let next_point := if world then m_transform r p else p in
               on_cairo [Cairo.cairo_line_to (x next_point) (y next_point)] acc)
            rest r1 in
        Some (on_cairo [Cairo.cairo_close_path; Cairo.cairo_fill] r2)
  end.

Definition draw_arc_path (r : renderer) (center : point2d)
    (radius start_angle extent_angle stretch_factor : double)
    (fill_flag : bool) : renderer :=
  let point_x := mk_point (x center + radius) (y center) in
  let world := t_coordinate_system_eqb (current_coordinate_system r) WORLD in
  let center := if world then m_transform r center else center in
  let point_x := if world then m_transform r point_x else point_x in
  let radius := (x point_x - x center)%dbl in
  if x11_opaque r then
    if fill_flag then
      on_x11 [Xlib.XFillArc (x center - radius) (y center - radius * stretch_factor)
                (two * radius) (two * radius * stretch_factor)
                (start_angle * of_Z 64) (extent_angle * of_Z 64)] r
    else
      on_x11 [Xlib.XDrawArc (x center - radius) (y center - radius * stretch_factor)
                (two * radius) (two * radius * stretch_factor)
                (start_angle * of_Z 64) (extent_angle * of_Z 64)] r
  else
    let r1 := on_cairo [Cairo.cairo_save;
                        Cairo.cairo_scale (one / stretch_factor) one] r in
    let center := mk_point (x center * stretch_factor) (y center) in
    let radius := (radius * stretch_factor)%dbl in
    let r2 := on_cairo [Cairo.cairo_new_path] r1 in
    let r3 := if fill_flag
              then on_cairo [Cairo.cairo_move_to (x center) (y center)] r2
              else r2 in
    let end_angle := (start_angle + extent_angle)%dbl in
    let r4 :=
      if (pos_zero <=? extent_angle)%dbl then
        on_cairo [Cairo.cairo_arc_negative (x center) (y center) radius
                    ((- start_angle) * M_PI / d180) ((- end_angle) * M_PI / d180)] r3
      else
        on_cairo [Cairo.cairo_arc (x center) (y center) radius
                    ((- start_angle) * M_PI / d180) ((- end_angle) * M_PI / d180)] r3 in
    let r5 := if fill_flag then on_cairo [Cairo.cairo_close_path] r4 else r4 in
    let r6 := on_cairo [Cairo.cairo_restore] r5 in
    if fill_flag then on_cairo [Cairo.cairo_fill] r6
    else on_cairo [Cairo.cairo_stroke] r6.

Definition draw_elliptic_arc (r : renderer) (center : point2d)
    (radius_x radius_y start_angle extent_angle : double) : renderer :=
  if rectangle_off_screen r
       (rectangle_of_points (mk_point (x center - radius_x) (y center - radius_y))
                            (mk_point (x center + radius_x) (y center + radius_y)))
  then r else
  let stretch_factor := (radius_y / radius_x)%dbl in
  draw_arc_path r center radius_x start_angle extent_angle stretch_factor false.

Definition draw_arc (r : renderer) (center : point2d)
    (radius start_angle extent_angle : double) : renderer :=
  if rectangle_off_screen r
       (rectangle_of_points (mk_point (x center - radius) (y center - radius))
                            (mk_point (x center + radius) (y center + radius)))
  then r else
  draw_arc_path r center radius start_angle extent_angle one false.

Definition fill_elliptic_arc (r : renderer) (center : point2d)
    (radius_x radius_y start_angle extent_angle : double) : renderer :=
  if rectangle_off_screen r
       (rectangle_of_points (mk_point (x center - radius_x) (y center - radius_y))
                            (mk_point (x center + radius_x) (y center + radius_y)))
  then r else
  let stretch_factor := (radius_y / radius_x)%dbl in
  draw_arc_path r center radius_x start_angle extent_angle stretch_factor true.

Definition fill_arc (r : renderer) (center : point2d)
    (radius start_angle extent_angle : double) : renderer :=
  if rectangle_off_screen r
       (rectangle_of_points (mk_point (x center - radius) (y center - radius))
                            (mk_point (x center + radius) (y center + radius)))
  then r else
  draw_arc_path r center radius start_angle extent_angle one true.

(** [draw_text(point2d center, std::string const &text, double bound_x,
    double bound_y)]. *)
Definition draw_text_bounded (E : externals) (r : renderer) (center : point2d)
    (text : string) (bound_x bound_y : double) : renderer :=
  if rectangle_off_screen r
       (rectangle_of_size
          (mk_point (x center - bound_x / two) (y center - bound_y / two))
          bound_x bound_y)
  then r else
  let text_extents := cairo_text_extents E (m_cairo r) text in
  let font_extents := cairo_font_extents E (m_cairo r) in
  let scaled_width :=
    (Cairo.width text_extents * x (get_world_scale_factor (m_camera r)))%dbl in
  let scaled_height :=
    (Cairo.height text_extents * y (get_world_scale_factor (m_camera r)))%dbl in
  if (scaled_width >? bound_x)%dbl || (scaled_height >? bound_y)%dbl then r else
  let r1 := on_cairo [Cairo.cairo_save] r in
  let center :=
    if t_coordinate_system_eqb (current_coordinate_system r) WORLD
    then m_transform r center else center in
  let ref_x :=
    (x center
     - (Cairo.x_bearing text_extents + Cairo.width text_extents / two)
       * cos E (rotation_angle r)
     - ((- Cairo.descent font_extents) + Cairo.height text_extents / two)
       * sin E (rotation_angle r))%dbl in
  let ref_y :=
    (y center
     - (Cairo.y_bearing text_extents + Cairo.height text_extents / two)
       * cos E (rotation_angle r)
     - (Cairo.x_bearing text_extents + Cairo.width text_extents / two)
       * sin E (rotation_angle r))%dbl in
  let r2 := on_cairo [Cairo.cairo_move_to ref_x ref_y;
                      Cairo.cairo_rotate (rotation_angle r);
                      Cairo.cairo_show_text text] r1 in
  on_cairo [Cairo.cairo_restore] r2.

(** [draw_text(point2d center, std::string const &text)]. *)
Definition draw_text (E : externals) (r : renderer) (center : point2d)
    (text : string) : renderer :=
  draw_text_bounded E r center text DBL_MAX DBL_MAX.

(** [draw_text(point2d center, std::string const &text, const rectangle
    &bounds)]. *)
Definition draw_text_in (E : externals) (r : renderer) (center : point2d)
    (text : string) (bounds : rectangle) : renderer :=
  let bottom_left_bounds := point_sub center (bottom_left bounds) in
  let top_right_bounds := point_sub (top_right bounds) center in
  let bound_x := (std_min (x bottom_left_bounds) (x top_right_bounds) * two)%dbl in
  let bound_y := (std_min (y bottom_left_bounds) (y top_right_bounds) * two)%dbl in
  draw_text_bounded E r center text bound_x bound_y.

Definition draw_surface (r : renderer) (surface : Cairo.cairo_surface_t)
    (top_left : point2d) : renderer :=
  if negb (Cairo.cairo_surface_status surface =? Cairo.CAIRO_STATUS_SUCCESS) then r else
  let s_width := of_Z (Cairo.cairo_image_surface_get_width surface) in
  let s_height := of_Z (Cairo.cairo_image_surface_get_height surface) in
  if rectangle_off_screen r
       (rectangle_of_size (mk_point (x top_left) (y top_left - s_height)) s_width s_height)
  then r else
  let top_left :=
    if t_coordinate_system_eqb (current_coordinate_system r) WORLD
    then m_transform r top_left else top_left in
  on_cairo [Cairo.cairo_set_source_surface surface (x top_left) (y top_left);
            Cairo.cairo_paint] r.

(** [draw_png]: the surface is local; nothing of it reaches the caller, and
    [cairo_surface_destroy] acts on the surface, not on the renderer. *)
Definition draw_png (E : externals) (r : renderer) (file_path : string)
    (top_left : point2d) : renderer :=
  let png_surface := cairo_image_surface_create_from_png E file_path in
  if negb (Cairo.cairo_surface_status png_surface =? Cairo.CAIRO_STATUS_SUCCESS) then r else
  draw_surface r png_surface top_left.

(** ** Vocabulary of the statements *)

(** The result of rounding a magnitude carries the sign it was given. *)
Definition signed_as (s : bool) (a : double) : Prop :=
  match a with
  | S754_zero s' | S754_infinity s' | S754_finite s' _ _ => s' = s
  | S754_nan => True
  end.

(** Two doubles are the same number when they are identical or both are
    zeros (of any sign). *)
Definition same_number (a b : double) : Prop :=
  a = b \/ (is_zero a = true /\ is_zero b = true).

Definition is_finite (a : double) : bool :=
  match a with S754_zero _ | S754_finite _ _ _ => true | _ => false end.

Definition no_nan (p : point2d) : bool := negb (is_nan (x p)) && negb (is_nan (y p)).
Definition binary64_point (p : point2d) : bool := valid (x p) && valid (y p).
Definition finite_point (p : point2d) : bool := is_finite (x p) && is_finite (y p).

(** ** The drawing primitives as one family *)
Inductive primitive : Type :=
| Line (start end_ : point2d)
| Rectangle (start end_ : point2d) (fill_flag : bool)
| RectangleSize (start : point2d) (w h : double) (fill_flag : bool)
| RectangleRect (rect : rectangle) (fill_flag : bool)
| Poly (p0 p1 : point2d) (rest : list point2d)
| Arc (center : point2d) (radius start_angle extent_angle : double) (fill_flag : bool)
| EllipticArc (center : point2d) (radius_x radius_y start_angle extent_angle : double)
    (fill_flag : bool)
| Surface (surface : Cairo.cairo_surface_t) (top_left : point2d).

(** The member function each primitive stands for. *)
Definition draw (r : renderer) (p : primitive) : option renderer :=
  match p with
  | Line s e => Some (draw_line r s e)
  | Rectangle s e false => Some (draw_rectangle r s e)
  | Rectangle s e true => Some (fill_rectangle r s e)
  | RectangleSize s w h false => Some (draw_rectangle_size r s w h)
  | RectangleSize s w h true => Some (fill_rectangle_size r s w h)
  | RectangleRect rect false => Some (draw_rectangle_rect r rect)
  | RectangleRect rect true => Some (fill_rectangle_rect r rect)
  | Poly p0 p1 rest => fill_poly r (p0 :: p1 :: rest)
  | Arc c radius sa ea false => Some (draw_arc r c radius sa ea)
  | Arc c radius sa ea true => Some (fill_arc r c radius sa ea)
  | EllipticArc c rx ry sa ea false => Some (draw_elliptic_arc r c rx ry sa ea)
  | EllipticArc c rx ry sa ea true => Some (fill_elliptic_arc r c rx ry sa ea)
  | Surface s tl => Some (draw_surface r s tl)
  end.

(** The axis-aligned rectangle around the geometry of a primitive. *)
Definition bounding_rectangle (p : primitive) : rectangle :=
  match p with
  | Line s e | Rectangle s e _ => mk_rect s e
  | RectangleSize s w h _ => mk_rect s (mk_point (x s + w) (y s + h))
  | RectangleRect rect _ =>
      mk_rect (mk_point (left rect) (bottom rect)) (mk_point (right rect) (top rect))
  | Poly p0 p1 rest =>
      let pts := p1 :: rest in
      mk_rect (mk_point (fold_left std_min (map x pts) (x p0))
                        (fold_left std_min (map y pts) (y p0)))
              (mk_point (fold_left std_max (map x pts) (x p0))
                        (fold_left std_max (map y pts) (y p0)))
  | Arc c radius _ _ _ =>
      mk_rect (mk_point (x c - radius) (y c - radius))
              (mk_point (x c + radius) (y c + radius))
  | EllipticArc c rx ry _ _ _ =>
      mk_rect (mk_point (x c - rx) (y c - ry)) (mk_point (x c + rx) (y c + ry))
  | Surface s tl =>
      let w := of_Z (Cairo.cairo_image_surface_get_width s) in
      let h := of_Z (Cairo.cairo_image_surface_get_height s) in
      mk_rect (mk_point (x tl) (y tl - h)) (mk_point (x tl + w) (y tl - h + h))
  end.

(** ** What reaches the drawing interface

    The calls a primitive issues, given the map [f] that its geometric
    points go through on their way to the drawing interface. *)
Definition line_calls (r : renderer) (s e : point2d) : renderer :=
  if x11_opaque r then
    on_x11 [Xlib.XDrawLine (x s) (y s) (x e) (y e)] r
  else
    on_cairo [Cairo.cairo_move_to (x s) (y s);
              Cairo.cairo_line_to (x e) (y e);
              Cairo.cairo_stroke] r.

Definition rectangle_calls (r : renderer) (s e : point2d) (fill_flag : bool) : renderer :=
  if x11_opaque r then
    on_x11 [(if fill_flag then Xlib.XFillRectangle else Xlib.XDrawRectangle)
              (std_min (x s) (x e)) (std_min (y s) (y e))
              (abs (x e - x s)%dbl) (abs (y e - y s)%dbl)] r
  else
    on_cairo [Cairo.cairo_move_to (x s) (y s);
              Cairo.cairo_line_to (x s) (y e);
              Cairo.cairo_line_to (x e) (y e);
              Cairo.cairo_line_to (x e) (y s);
              Cairo.cairo_close_path;
              if fill_flag then Cairo.cairo_fill else Cairo.cairo_stroke] r.

Definition poly_calls (r : renderer) (p0 : point2d) (rest : list point2d) : renderer :=
  if x11_opaque r then
    on_x11 [Xlib.XFillPolygon (map (fun p => (x p, y p)) (p0 :: rest))
              (S (List.length rest))] r
  else
    on_cairo (Cairo.cairo_move_to (x p0) (y p0)
              :: map (fun p => Cairo.cairo_line_to (x p) (y p)) rest
              ++ [Cairo.cairo_close_path; Cairo.cairo_fill]) r.

(** An arc is given to the interface by its centre [c] and the point [px]
    of its outline at angle 0, both already mapped. *)
Definition arc_calls (r : renderer) (c px : point2d)
    (start_angle extent_angle stretch_factor : double) (fill_flag : bool) : renderer :=
  let radius := (x px - x c)%dbl in
  if x11_opaque r then
    on_x11 [(if fill_flag then Xlib.XFillArc else Xlib.XDrawArc)
              (x c - radius)%dbl (y c - radius * stretch_factor)%dbl
              (two * radius)%dbl (two * radius * stretch_factor)%dbl
              (start_angle * of_Z 64)%dbl (extent_angle * of_Z 64)%dbl] r
  else
    on_cairo
      ([Cairo.cairo_save; Cairo.cairo_scale (one / stretch_factor) one;
        Cairo.cairo_new_path]
       ++ (if fill_flag then [Cairo.cairo_move_to (x c * stretch_factor) (y c)] else [])
       ++ [(if (pos_zero <=? extent_angle)%dbl
            then Cairo.cairo_arc_negative else Cairo.cairo_arc)
             (x c * stretch_factor)%dbl (y c) (radius * stretch_factor)%dbl
             ((- start_angle) * M_PI / d180)%dbl
             ((- (start_angle + extent_angle)) * M_PI / d180)%dbl]
       ++ (if fill_flag then [Cairo.cairo_close_path] else [])
       ++ [Cairo.cairo_restore;
           if fill_flag then Cairo.cairo_fill else Cairo.cairo_stroke]) r.

Definition surface_calls (r : renderer) (surface : Cairo.cairo_surface_t)
    (tl : point2d) : renderer :=
  on_cairo [Cairo.cairo_set_source_surface surface (x tl) (y tl); Cairo.cairo_paint] r.

Definition screen_calls (r : renderer) (f : point2d -> point2d) (p : primitive) : renderer :=
  match p with
  | Line s e => line_calls r (f s) (f e)
  | Rectangle s e fill => rectangle_calls r (f s) (f e) fill
  | RectangleSize s w h fill =>
      rectangle_calls r (f s) (f (mk_point (x s + w) (y s + h))) fill
  | RectangleRect rect fill =>
      rectangle_calls r (f (mk_point (left rect) (bottom rect)))
        (f (mk_point (right rect) (top rect))) fill
  | Poly p0 p1 rest => poly_calls r (f p0) (map f (p1 :: rest))
  | Arc c radius sa ea fill =>
      arc_calls r (f c) (f (mk_point (x c + radius) (y c))) sa ea one fill
  | EllipticArc c rx ry sa ea fill =>
      arc_calls r (f c) (f (mk_point (x c + rx) (y c))) sa ea (ry / rx) fill
  | Surface s tl => surface_calls r s (f tl)
  end.

(** A primitive that can be drawn at all: a surface must be a good one. *)
Definition drawable (p : primitive) : bool :=
  match p with
  | Surface s _ => Cairo.cairo_surface_status s =? Cairo.CAIRO_STATUS_SUCCESS
  | _ => true
  end.

(** The map of the current coordinate system. *)
Definition to_screen (r : renderer) (p : point2d) : point2d :=
  match current_coordinate_system r with
  | WORLD => m_transform r p
  | SCREEN => p
  end.

(** The point [draw_text] moves to before it rotates and shows the text: the
    text is centred on [centre_on_screen] once turned by [angle]. *)
Definition text_reference_point (E : externals) (r : renderer) (centre_on_screen : point2d)
    (text : string) (angle : double) : point2d :=
  let te := cairo_text_extents E (m_cairo r) text in
  let fe := cairo_font_extents E (m_cairo r) in
  mk_point
    (x centre_on_screen
     - (Cairo.x_bearing te + Cairo.width te / two) * cos E angle
     - ((- Cairo.descent fe) + Cairo.height te / two) * sin E angle)
    (y centre_on_screen
     - (Cairo.y_bearing te + Cairo.height te / two) * cos E angle
     - (Cairo.x_bearing te + Cairo.width te / two) * sin E angle).

(** The two tests that make [draw_text] return early. *)
Definition text_off_screen (r : renderer) (center : point2d) (bound_x bound_y : double) : bool :=
  rectangle_off_screen r
    (rectangle_of_size (mk_point (x center - bound_x / two) (y center - bound_y / two))
       bound_x bound_y).

Definition scaled_width (E : externals) (r : renderer) (text : string) : double :=
  (Cairo.width (cairo_text_extents E (m_cairo r) text)
   * x (get_world_scale_factor (m_camera r)))%dbl.

Definition scaled_height (E : externals) (r : renderer) (text : string) : double :=
  (Cairo.height (cairo_text_extents E (m_cairo r) text)
   * y (get_world_scale_factor (m_camera r)))%dbl.

Definition text_exceeds_bounds (E : externals) (r : renderer) (text : string)
    (bound_x bound_y : double) : bool :=
  (scaled_width E r text >? bound_x)%dbl || (scaled_height E r text >? bound_y)%dbl.

(** ** Sample inputs

    A camera showing the world square from (0,0) to (100,100) on a 200 by 200
    screen, a transform that doubles both coordinates, and stand-ins for the
    library answers. *)

Definition pt (px py : Z) : point2d := mk_point (of_Z px) (of_Z py).

Definition sample_camera : camera :=
  mk_camera (mk_rect (pt 0 0) (pt 100 100)) (mk_rect (pt 0 0) (pt 200 200))
    (mk_point half half).

Definition sample_transform (p : point2d) : point2d := point_mul p (pt 2 2).

Definition sample_renderer : renderer :=
  mk_renderer [] sample_transform sample_camera pos_zero WORLD None.


Definition sample_image : Cairo.cairo_surface_t :=
  Cairo.mk_surface Cairo.CAIRO_STATUS_SUCCESS 16 16.

Definition missing_image : Cairo.cairo_surface_t :=
  Cairo.mk_surface Cairo.CAIRO_STATUS_FILE_NOT_FOUND 0 0.

Definition sample_externals : externals :=
  mk_externals
    (fun _ _ => Cairo.mk_text_extents pos_zero pos_zero (of_Z 40) (of_Z 10)
                  (of_Z 40) pos_zero)
    (fun _ => Cairo.mk_font_extents (of_Z 8) two (of_Z 10) (of_Z 12) pos_zero)
    (fun file_path => if String.eqb file_path "logo.png" then sample_image
                      else missing_image)
    (fun _ => one)
    (fun _ => pos_zero).

(** A camera whose world scale factor is infinite along x, as the quotient
    of a world width by a zero screen width is. *)
Definition degenerate_camera : camera :=
  mk_camera (mk_rect (pt 0 0) (pt 100 100)) (mk_rect (pt 0 0) (pt 0 200))
    (mk_point pos_inf half).

Definition degenerate_renderer : renderer :=
  mk_renderer [] sample_transform degenerate_camera pos_zero SCREEN None.

(** ** canvas.cpp

    The GTK and Cairo objects the canvas works with are identified by
    numbers; a null pointer is [None].  The windowing state holds what the
    library answers about widgets, the surfaces and contexts that are alive,
    and the calls made so far, oldest first.  What the draw callback does is
    the application's business; its invocation is recorded. *)

Module Gtk.

Inductive handler : Type := configure_event_handler | draw_surface_handler.

Inductive event_mask : Type := GDK_BUTTON_PRESS_MASK | GDK_BUTTON_RELEASE_MASK.

Inductive call : Type :=
| gtk_widget_get_window (widget : nat)
| gtk_widget_get_allocated_width (widget : nat)
| gtk_widget_get_allocated_height (widget : nat)
| gdk_window_create_similar_surface (window : nat) (w h : Z) (result : nat)
| cairo_surface_destroy (surface : option nat)
| cairo_create (surface : option nat) (result : nat)
| draw_callback (callback context : nat)
| cairo_destroy (context : nat)
| gtk_widget_queue_draw (widget : option nat)
| g_signal_connect (widget : nat) (signal : string) (h : handler) (data : string)
| gtk_widget_add_events (widget : nat) (mask : event_mask)
| cairo_set_source_surface (context surface : nat) (px py : double)
| cairo_paint (context : nat)
| g_info (message : string)
| g_return_if_fail_warning (expression : string).

Record state : Type := mk_state {
  window_of : nat -> nat;
  allocated_size : nat -> Z * Z;
  next_pointer : nat;
  live_surfaces : list nat;
  live_contexts : list nat;
  calls : list call
}.

Definition log (c : call) (g : state) : state :=
  mk_state (window_of g) (allocated_size g) (next_pointer g) (live_surfaces g)
    (live_contexts g) (calls g ++ [c]).

(** A new surface or context gets the next free pointer. *)
Definition new_surface (window : nat) (w h : Z) (g : state) : nat * state :=
  let s := next_pointer g in
  (s, mk_state (window_of g) (allocated_size g) (S s) (s :: live_surfaces g)
        (live_contexts g)
        (calls g ++ [gdk_window_create_similar_surface window w h s])).

Definition new_context (surface : option nat) (g : state) : nat * state :=
  let c := next_pointer g in
  (c, mk_state (window_of g) (allocated_size g) (S c) (live_surfaces g)
        (c :: live_contexts g) (calls g ++ [cairo_create surface c])).

(** [cairo_surface_destroy(NULL)] does nothing. *)
Definition destroy_surface (surface : option nat) (g : state) : state :=
  mk_state (window_of g) (allocated_size g) (next_pointer g)
    (match surface with
     | Some s => List.remove Nat.eq_dec s (live_surfaces g)
     | None => live_surfaces g
     end)
    (live_contexts g) (calls g ++ [cairo_surface_destroy surface]).

Definition destroy_context (context : nat) (g : state) : state :=
  mk_state (window_of g) (allocated_size g) (next_pointer g) (live_surfaces g)
    (List.remove Nat.eq_dec context (live_contexts g))
    (calls g ++ [cairo_destroy context]).

End Gtk.

(** The members of [canvas] that canvas.cpp uses; canvas.hpp initialises the
    two pointers to [nullptr]. *)
Record canvas : Type := mk_canvas {
  m_canvas_id : string;
  m_draw_callback : nat;
  m_drawing_area : option nat;
  m_surface : option nat
}.

(** [canvas::canvas(char const *canvas_id, draw_canvas_fn draw_callback)]. *)
Definition canvas_new (canvas_id : string) (draw_callback : nat) : canvas :=
  mk_canvas canvas_id draw_callback None None.

Definition create_surface (widget : nat) (g : Gtk.state) : nat * Gtk.state :=
  let parent_window := Gtk.window_of g widget in
  let g := Gtk.log (Gtk.gtk_widget_get_window widget) g in
  let w := fst (Gtk.allocated_size g widget) in
  let g := Gtk.log (Gtk.gtk_widget_get_allocated_width widget) g in
  let h := snd (Gtk.allocated_size g widget) in
  let g := Gtk.log (Gtk.gtk_widget_get_allocated_height widget) g in
  Gtk.new_surface parent_window w h g.

Definition redraw (c : canvas) (g : Gtk.state) : Gtk.state :=
  let '(context, g) := Gtk.new_context (m_surface c) g in
  let g := Gtk.log (Gtk.draw_callback (m_draw_callback c) context) g in
  let g := Gtk.destroy_context context g in
  let g := Gtk.log (Gtk.gtk_widget_queue_draw (m_drawing_area c)) g in
  Gtk.log (Gtk.g_info "The canvas will be redrawn.") g.

(** [canvas::configure_event]: the answer, the canvas behind [data] and the
    windowing state. *)
Definition configure_event (widget : nat) (data : option canvas) (g : Gtk.state)
  : bool * option canvas * Gtk.state :=
  match data with
  | None => (false, None, Gtk.log (Gtk.g_return_if_fail_warning "data != nullptr") g)
  | Some ezgl_canvas =>
      let g :=
        match m_surface ezgl_canvas with
        | None => Gtk.destroy_surface None g
        | Some _ => g
        end in
      let '(surface, g) := create_surface widget g in
      let ezgl_canvas :=
        mk_canvas (m_canvas_id ezgl_canvas) (m_draw_callback ezgl_canvas)
          (m_drawing_area ezgl_canvas) (Some surface) in
      let g := redraw ezgl_canvas g in
      let g := Gtk.log (Gtk.g_info "canvas::configure_event has been handled.") g in
      (true, Some ezgl_canvas, g)
  end.

(** [canvas::draw_surface]; the code assumes that [data] and the surface of
    the canvas are not null, and has no defined result ([None]) otherwise. *)
Definition canvas_draw_surface (context : nat) (data : option canvas) (g : Gtk.state)
  : option (bool * Gtk.state) :=
  match data with
  | Some c =>
      match m_surface c with
      | Some surface =>
          let g :=
            Gtk.log (Gtk.cairo_set_source_surface context surface pos_zero pos_zero) g in
          let g := Gtk.log (Gtk.cairo_paint context) g in
          Some (false, g)
      | None => None
      end
  | None => None
  end.

Definition initialize (c : canvas) (drawing_area : option nat) (g : Gtk.state)
  : canvas * Gtk.state :=
  match drawing_area with
  | None => (c, Gtk.log (Gtk.g_return_if_fail_warning "drawing_area != nullptr") g)
  | Some area =>
      let c := mk_canvas (m_canvas_id c) (m_draw_callback c) (Some area) (m_surface c) in
      let '(surface, g) := create_surface area g in
      let c := mk_canvas (m_canvas_id c) (m_draw_callback c) (m_drawing_area c)
                 (Some surface) in
      let g := redraw c g in
      let g := Gtk.log (Gtk.g_signal_connect area "configure-event"
                          Gtk.configure_event_handler (m_canvas_id c)) g in
      let g := Gtk.log (Gtk.g_signal_connect area "draw"
                          Gtk.draw_surface_handler (m_canvas_id c)) g in
      let g := Gtk.log (Gtk.gtk_widget_add_events area Gtk.GDK_BUTTON_PRESS_MASK) g in
      let g := Gtk.log (Gtk.gtk_widget_add_events area Gtk.GDK_BUTTON_RELEASE_MASK) g in
      let g := Gtk.log (Gtk.g_info "canvas::initialize successful.") g in
      (c, g)
  end.

(** Every live pointer was handed out before [next_pointer]. *)
Definition pointers_below_next (g : Gtk.state) : Prop :=
  forall p, In p (Gtk.live_surfaces g) \/ In p (Gtk.live_contexts g) ->
            (p < Gtk.next_pointer g)%nat.

(** The calls, among those made, that destroy a surface that is not null. *)
Definition destroyed_surfaces (l : list Gtk.call) : list nat :=
  flat_map (fun c => match c with
                     | Gtk.cairo_surface_destroy (Some s) => [s]
                     | _ => []
                     end) l.

Definition callback_runs (l : list Gtk.call) : list (nat * nat) :=
  flat_map (fun c => match c with
                     | Gtk.draw_callback f context => [(f, context)]
                     | _ => []
                     end) l.
(** The canvas is ready to be painted: it has its drawing area and holds a
    surface that is alive. *)
Definition ready (c : canvas) (g : Gtk.state) : Prop :=
  m_drawing_area c <> None /\
  exists s, m_surface c = Some s /\ In s (Gtk.live_surfaces g).

(** The place of a double in the order of the comparison operators: the
    class (negative infinity, negative, zero, positive, positive infinity),
    then exponent and mantissa, both negated for negative numbers. *)
Definition order_key (a : double) : Z * Z * Z :=
  match a with
  | S754_infinity true => (-2, 0, 0)
  | S754_finite true m e => (-1, - e, - Z.pos m)
  | S754_zero _ | S754_nan => (0, 0, 0)
  | S754_finite false m e => (1, e, Z.pos m)
  | S754_infinity false => (2, 0, 0)
  end.

Definition key_compare (k1 k2 : Z * Z * Z) : comparison :=
  match k1, k2 with
  | (c1, e1, m1), (c2, e2, m2) =>
      match c1 ?= c2 with
      | Eq => match e1 ?= e2 with Eq => m1 ?= m2 | c => c end
      | c => c
      end
  end.

(** The number of calls issued so far on the Cairo context and, in the X11
    build, on the graphics context. *)
Definition calls_issued (r : renderer) : nat :=
  (List.length (m_cairo r)
   + match x11 r with
     | Some xs => List.length (x11_context xs)
     | None => 0
     end)%nat.

Definition x11_calls (r : renderer) : list Xlib.call :=
  match x11 r with
  | Some xs => x11_context xs
  | None => []
  end.

(** The members of the X11 build that the setters maintain. *)
Definition x11_settings (r : renderer)
  : option (bool * Z * line_cap * line_dash) :=
  match x11 r with
  | Some xs =>
      Some (transparency_flag xs, current_line_width xs, current_line_cap xs,
            current_line_dash xs)
  | None => None
  end.

(** The renderer [r'] has the settings of [r] and the calls of [r] followed
    by further ones. *)
Definition extends (r r' : renderer) : Prop :=
  m_transform r' = m_transform r /\
  m_camera r' = m_camera r /\
  rotation_angle r' = rotation_angle r /\
  current_coordinate_system r' = current_coordinate_system r /\
  x11_settings r' = x11_settings r /\
  (exists l, m_cairo r' = m_cairo r ++ l) /\
  (exists l, x11_calls r' = x11_calls r ++ l).

(** The depth of [cairo_save] nesting after a sequence of calls starting at
    depth [d]; [None] when a [cairo_restore] has no [cairo_save] to undo. *)
Fixpoint save_depth (calls : list Cairo.call) (d : nat) : option nat :=
  match calls with
  | [] => Some d
  | Cairo.cairo_save :: rest => save_depth rest (S d)
  | Cairo.cairo_restore :: rest =>
      match d with
      | O => None
      | S d' => save_depth rest d'
      end
  | _ :: rest => save_depth rest d
  end.
Definition is_surface (p : primitive) : bool :=
  match p with Surface _ _ => true | _ => false end.

(** The line style Xlib was last told, and the one the members hold. *)
Definition gc_line_style (calls : list Xlib.call) : option (Z * bool * bool) :=
  fold_left (fun acc c =>
               match c with
               | Xlib.XSetLineAttributes w dashed round_cap => Some (w, dashed, round_cap)
               | _ => acc
               end) calls None.

Definition member_line_style (xs : x11_members) : Z * bool * bool :=
  (current_line_width xs,
   match current_line_dash xs with none => false | asymmetric_5_3 => true end,
   match current_line_cap xs with butt => false | round => true end).

Definition line_style_in_sync (r : renderer) : Prop :=
  match x11 r with
  | Some xs => gc_line_style (x11_context xs) = Some (member_line_style xs)
  | None => True
  end.

(** The line width member is a value Xlib receives unchanged: it is not
    negative (and at most [INT_MAX], as every [int] is). *)
Definition line_width_fits (r : renderer) : Prop :=
  match x11 r with
  | Some xs => 0 <= current_line_width xs <= 2147483647
  | None => True
  end.

(** What decides where a shape lands and whether it is culled. *)
Definition same_view (r r' : renderer) : Prop :=
  m_transform r' = m_transform r /\
  m_camera r' = m_camera r /\
  current_coordinate_system r' = current_coordinate_system r.

(** Further sample inputs: a renderer of the X11 build, and a canvas that
    holds surface 3 in a windowing state whose next free pointer is 5. *)

Definition sample_x11_renderer : renderer :=
  mk_renderer [] sample_transform sample_camera pos_zero WORLD
    (Some (mk_x11 [] true 1 butt none)).

Definition sample_gtk : Gtk.state :=
  Gtk.mk_state (fun widget => (widget + 100)%nat) (fun _ => (640, 480)) 5 [3%nat] [] [].

Definition sample_canvas : canvas := mk_canvas "MainCanvas" 7 (Some 1%nat) (Some 3%nat).

(** [inside a b]: the edges of [a] lie within those of [b]. *)
Definition inside (a b : rectangle) : Prop :=
  (left b <=? left a)%dbl = true /\ (right a <=? right b)%dbl = true /\
  (bottom b <=? bottom a)%dbl = true /\ (top a <=? top b)%dbl = true.

(** [n] configure events in a row on the canvas behind [data]. *)
Fixpoint configure_events (n : nat) (widget : nat) (data : option canvas)
    (g : Gtk.state) : option canvas * Gtk.state :=
  match n with
  | O => (data, g)
  | S n' =>
      let '(_, data', g') := configure_event widget data g in
      configure_events n' widget data' g'
  end.

(** A double that is less than or equal to zero: a zero, a negative number
    or negative infinity. *)
Definition not_positive (a : double) : Prop := (a <=? pos_zero)%dbl = true.

(** * Proofs *)

(** ** Comparison of doubles *)

Lemma compare_cont_is_compare (p q : positive) :
  Pos.compare_cont Eq p q = Pos.compare p q.
Proof. reflexivity. Qed.

Lemma SFcompare_antisym (a b : double) :
  SFcompare b a = option_map CompOpp (SFcompare a b).
Proof.
  destruct a as [sa|sa| |sa ma ea], b as [sb|sb| |sb mb eb]; simpl;
    try reflexivity;
    try (destruct sa; reflexivity);
    try (destruct sb; reflexivity);
    try (destruct sa, sb; reflexivity).
  rewrite !compare_cont_is_compare.
  rewrite (Z.compare_antisym ea eb), (Pos.compare_antisym ma mb).
  destruct sa, sb; simpl; try reflexivity;
    destruct (ea ?= eb); simpl; try reflexivity;
    destruct (ma ?= mb)%positive; reflexivity.
Qed.

Lemma SFcompare_refl (a : double) :
  is_nan a = false -> SFcompare a a = Some Eq.
Proof.
  destruct a as [s|s| |s m e]; simpl; intros H; try discriminate;
    try (destruct s; reflexivity).
  rewrite compare_cont_is_compare, Z.compare_refl, Pos.compare_refl.
  destruct s; reflexivity.
Qed.

Lemma SFcompare_nan (a b : double) :
  SFcompare a b = None <-> is_nan a = true \/ is_nan b = true.
Proof.
  destruct a as [sa|sa| |sa ma ea], b as [sb|sb| |sb mb eb]; simpl;
    split; intros H; try discriminate; try reflexivity; auto;
    try (destruct H; discriminate).
Qed.
Lemma digits2_pos_bounds (m : positive) :
  2 ^ (Z.pos (digits2_pos m) - 1) <= Z.pos m < 2 ^ Z.pos (digits2_pos m).
Proof.
  induction m as [m IH|m IH|]; cbn [digits2_pos].
  - rewrite Pos2Z.inj_succ.
    replace (Z.succ (Z.pos (digits2_pos m)) - 1) with (Z.succ (Z.pos (digits2_pos m) - 1)) by lia.
    rewrite !Z.pow_succ_r by lia. lia.
  - rewrite Pos2Z.inj_succ.
    replace (Z.succ (Z.pos (digits2_pos m)) - 1) with (Z.succ (Z.pos (digits2_pos m) - 1)) by lia.
    rewrite !Z.pow_succ_r by lia. lia.
  - simpl. lia.
Qed.

Lemma shl_align_value (m : positive) (e ez : Z) :
  ez <= e -> Z.pos (fst (shl_align m e ez)) = Z.pos m * 2 ^ (e - ez).
Proof.
  intros H. unfold shl_align.
  destruct (ez - e) as [|d|d] eqn:E; try lia.
  - replace (e - ez) with 0 by lia. simpl. lia.
  - cbn [fst]. replace (e - ez) with (Z.pos d) by lia.
    rewrite <- Z.pow_pos_fold.
    change (Pos.iter xO m d) with (shift_pos d m).
    rewrite shift_pos_correct. lia.
Qed.

Lemma binary_round_aux_sign (s : bool) (m e : Z) (l : location) :
  signed_as s (binary_round_aux prec emax s m e l).
Proof.
  unfold binary_round_aux.
  destruct (shr_fexp prec emax m e l) as [mrs' e'].
  destruct (shr_fexp prec emax _ e' loc_Exact) as [mrs'' e''].
  destruct (shr_m mrs''); simpl; auto.
  destruct (e'' <=? _); simpl; auto.
Qed.

Lemma binary_round_sign (s : bool) (m : positive) (e : Z) :
  signed_as s (binary_round prec emax s m e).
Proof.
  unfold binary_round.
  destruct (shl_align m e _) as [mz ez]. apply binary_round_aux_sign.
Qed.

Lemma binary_normalize_nonneg (m e : Z) :
  0 <= m -> signed_as false (binary_normalize prec emax m e false).
Proof.
  destruct m; simpl; intros H; try lia; auto.
  apply binary_round_sign.
Qed.

Lemma signed_as_false_not_negative (a : double) :
  signed_as false a -> ltb a pos_zero = false.
Proof.
  destruct a as [s|s| |s m e]; simpl; intros H; subst; reflexivity.
Qed.

Lemma valid_finite (s : bool) (m : positive) (e : Z) :
  valid (S754_finite s m e) = true ->
  Z.pos (digits2_pos m) <= 53 /\ -1074 <= e /\
  (-1074 < e -> Z.pos (digits2_pos m) = 53).
Proof.
  unfold valid, valid_binary, bounded, canonical_mantissa, fexp, emin, prec, emax.
  intros H. apply andb_true_iff in H. destruct H as [H _].
  apply Z.eqb_eq in H. lia.
Qed.

Lemma aligned_lt (ma mb : positive) (ea eb : Z) :
  valid (S754_finite false ma ea) = true ->
  valid (S754_finite false mb eb) = true ->
  eb < ea ->
  Z.pos mb < Z.pos ma * 2 ^ (ea - eb).
Proof.
  intros Va Vb H.
  apply valid_finite in Va, Vb.
  destruct Va as (_ & _ & Da), Vb as (Db & Eb & _).
  pose proof (digits2_pos_bounds ma) as Ba.
  pose proof (digits2_pos_bounds mb) as Bb.
  rewrite Da in Ba by lia.
  assert (Z.pos mb < 2 ^ 53).
  { eapply Z.lt_le_trans; [apply Bb|]. apply Z.pow_le_mono_r; lia. }
  assert (2 ^ 1 <= 2 ^ (ea - eb)) by (apply Z.pow_le_mono_r; lia).
  change (2 ^ (53 - 1)) with 4503599627370496 in Ba.
  change (2 ^ 53) with 9007199254740992 in H0.
  change (2 ^ 1) with 2 in H1.
  nia.
Qed.

Lemma aligned_diff_nonneg (sa sb : bool) (ma mb : positive) (ea eb : Z) :
  valid (S754_finite sa ma ea) = true ->
  valid (S754_finite sb mb eb) = true ->
  SFcompare (S754_finite sb mb eb) (S754_finite sa ma ea) = Some Lt ->
  0 <= cond_Zopp sa (Z.pos (fst (shl_align ma ea (Z.min ea eb))))
       - cond_Zopp sb (Z.pos (fst (shl_align mb eb (Z.min ea eb)))).
Proof.
  intros Va Vb H.
  assert (Va' : valid (S754_finite false ma ea) = true) by exact Va.
  assert (Vb' : valid (S754_finite false mb eb) = true) by exact Vb.
  rewrite !shl_align_value by lia.
  assert (0 < 2 ^ (ea - Z.min ea eb)) by (apply Z.pow_pos_nonneg; lia).
  assert (0 < 2 ^ (eb - Z.min ea eb)) by (apply Z.pow_pos_nonneg; lia).
  unfold SFcompare in H. rewrite compare_cont_is_compare in H.
  destruct sb, sa; cbn [cond_Zopp]; try discriminate; try nia.
  - (* both negative: the magnitude of [a] is the smaller one *)
    destruct (Z.compare_spec eb ea) as [E|E|E]; try discriminate.
    + subst eb. destruct (Pos.compare_spec mb ma); try discriminate. nia.
    + rewrite Z.min_l in * by lia. rewrite Z.sub_diag in *.
      pose proof (aligned_lt mb ma eb ea Vb' Va' E). lia.
  - (* both positive *)
    destruct (Z.compare_spec eb ea) as [E|E|E]; try discriminate.
    + subst eb. destruct (Pos.compare_spec mb ma); try discriminate. nia.
    + rewrite Z.min_r in * by lia. rewrite Z.sub_diag in *.
      pose proof (aligned_lt ma mb ea eb Va' Vb' E). lia.
Qed.

Lemma sub_lt_signed (a b : double) :
  valid a = true -> valid b = true -> ltb b a = true ->
  signed_as false (sub a b).
Proof.
  unfold ltb, SFltb. intros Va Vb H.
  destruct (SFcompare b a) as [[| |]|] eqn:C; try discriminate. clear H.
  destruct a as [sa|sa| |sa ma ea], b as [sb|sb| |sb mb eb];
    try discriminate;
    try (destruct sa; try discriminate; reflexivity);
    try (destruct sb; try discriminate; reflexivity);
    try (destruct sa, sb; try discriminate; reflexivity).
  apply binary_normalize_nonneg, aligned_diff_nonneg; assumption.
Qed.

Lemma sub_diag_signed (a : double) : signed_as false (sub a a).
Proof.
  destruct a as [s|s| |s m e]; simpl; try (destruct s; reflexivity); auto.
  apply binary_normalize_nonneg. lia.
Qed.

(** ** Order facts *)
Lemma ltb_leb (a b : double) : ltb a b = true -> leb a b = true.
Proof. unfold ltb, leb, SFltb, SFleb. destruct (SFcompare a b) as [[| |]|]; auto. Qed.

Lemma ltb_asym (a b : double) : ltb a b = true -> ltb b a = false.
Proof.
  unfold ltb, SFltb. rewrite (SFcompare_antisym a b).
  destruct (SFcompare a b) as [[| |]|]; simpl; auto; discriminate.
Qed.

Lemma leb_not_ltb (a b : double) : leb a b = true -> ltb b a = false.
Proof.
  unfold ltb, leb, SFltb, SFleb. rewrite (SFcompare_antisym a b).
  destruct (SFcompare a b) as [[| |]|]; simpl; auto; discriminate.
Qed.

Lemma not_ltb_leb (a b : double) :
  is_nan a = false -> is_nan b = false -> ltb b a = false -> leb a b = true.
Proof.
  intros Na Nb. unfold ltb, leb, SFltb, SFleb. rewrite (SFcompare_antisym a b).
  destruct (SFcompare a b) as [[| |]|] eqn:C; simpl; auto.
  apply SFcompare_nan in C. destruct C; congruence.
Qed.

Lemma leb_refl (a : double) : is_nan a = false -> leb a a = true.
Proof. intros H. unfold leb, SFleb. rewrite SFcompare_refl by assumption. reflexivity. Qed.

Lemma leb_not_nan (a b : double) :
  leb a b = true -> is_nan a = false /\ is_nan b = false.
Proof.
  unfold leb, SFleb. destruct a, b; simpl; auto; discriminate.
Qed.

Lemma same_number_refl (a : double) : same_number a a.
Proof. left; reflexivity. Qed.

Lemma SFcompare_Eq_same (a b : double) :
  SFcompare a b = Some Eq -> same_number a b.
Proof.
  destruct a as [sa|sa| |sa ma ea], b as [sb|sb| |sb mb eb]; simpl; intros H;
    try discriminate;
    try (right; split; reflexivity);
    try (destruct sa; discriminate);
    try (destruct sb; discriminate).
  - destruct sa, sb; try discriminate; left; reflexivity.
  - rewrite compare_cont_is_compare in H.
    destruct sa, sb; try discriminate;
      destruct (Z.compare_spec ea eb); try discriminate;
      destruct (Pos.compare_spec ma mb); try discriminate;
      subst; left; reflexivity.
Qed.

Lemma tie_same (a b : double) :
  is_nan a = false -> is_nan b = false ->
  ltb a b = false -> ltb b a = false -> same_number a b.
Proof.
  intros Na Nb. unfold ltb, SFltb. rewrite (SFcompare_antisym a b).
  destruct (SFcompare a b) as [[| |]|] eqn:C; simpl; try discriminate.
  - intros _ _. apply SFcompare_Eq_same; assumption.
  - apply SFcompare_nan in C. destruct C; congruence.
Qed.

Lemma same_number_compare_r (a b c : double) :
  same_number a b -> SFcompare c a = SFcompare c b.
Proof.
  intros [->|[Za Zb]]; [reflexivity|].
  destruct a, b; try discriminate. destruct c; reflexivity.
Qed.

Lemma same_number_compare_l (a b c : double) :
  same_number a b -> SFcompare a c = SFcompare b c.
Proof.
  intros [->|[Za Zb]]; [reflexivity|].
  destruct a, b; try discriminate. destruct c; reflexivity.
Qed.

Lemma same_number_eqb (a b : double) :
  same_number a b -> is_nan a = false -> eqb a b = true.
Proof.
  intros H Na. unfold eqb, SFeqb.
  rewrite <- (same_number_compare_r a b a H), SFcompare_refl by assumption.
  reflexivity.
Qed.

(** ** [std::min] and [std::max] *)
Lemma std_min_max_order (a b : double) :
  ltb (std_min a b) (std_max a b) = true \/
  (std_min a b = a /\ std_max a b = a).
Proof.
  unfold std_min, std_max.
  destruct (ltb b a) eqn:Hba.
  - rewrite (ltb_asym _ _ Hba). left; assumption.
  - destruct (ltb a b) eqn:Hab; [left; assumption | right; split; reflexivity].
Qed.

Lemma std_min_max_swap (a b : double) :
  is_nan a = false -> is_nan b = false ->
  (std_min a b = std_min b a /\ std_max a b = std_max b a) \/
  (std_min a b = a /\ std_max a b = a /\ std_min b a = b /\ std_max b a = b /\
   same_number a b).
Proof.
  intros Na Nb. unfold std_min, std_max.
  destruct (ltb b a) eqn:Hba.
  - rewrite (ltb_asym _ _ Hba). left; split; reflexivity.
  - destruct (ltb a b) eqn:Hab.
    + left; split; reflexivity.
    + right. repeat split. apply tie_same; assumption.
Qed.

Lemma std_min_not_nan (a b : double) :
  is_nan a = false -> is_nan b = false -> is_nan (std_min a b) = false.
Proof. unfold std_min. destruct (ltb b a); auto. Qed.

Lemma std_max_not_nan (a b : double) :
  is_nan a = false -> is_nan b = false -> is_nan (std_max a b) = false.
Proof. unfold std_max. destruct (ltb a b); auto. Qed.

Lemma std_min_le_max (a b : double) :
  is_nan a = false -> is_nan b = false -> leb (std_min a b) (std_max a b) = true.
Proof.
  intros Na Nb. destruct (std_min_max_order a b) as [H|[-> ->]].
  - apply ltb_leb; assumption.
  - apply leb_refl; assumption.
Qed.

Lemma std_min_valid (a b : double) :
  valid a = true -> valid b = true -> valid (std_min a b) = true.
Proof. unfold std_min. destruct (ltb b a); auto. Qed.

Lemma std_max_valid (a b : double) :
  valid a = true -> valid b = true -> valid (std_max a b) = true.
Proof. unfold std_max. destruct (ltb a b); auto. Qed.

(** ** Rounding never turns a magnitude into NaN *)
Lemma shr_1_nonneg (mrs : shr_record) : 0 <= shr_m mrs -> 0 <= shr_m (shr_1 mrs).
Proof.
  destruct mrs as [m r s]. simpl.
  destruct m as [|[p|p|]|p]; simpl; lia.
Qed.

Lemma iter_shr_1_nonneg (p : positive) (mrs : shr_record) :
  0 <= shr_m mrs -> 0 <= shr_m (iter_pos shr_1 p mrs).
Proof.
  revert mrs. induction p as [p IH|p IH|]; intros mrs H; simpl.
  - apply IH, IH, shr_1_nonneg, H.
  - apply IH, IH, H.
  - apply shr_1_nonneg, H.
Qed.

Lemma shr_fexp_nonneg (m e : Z) (l : location) :
  0 <= m -> 0 <= shr_m (fst (shr_fexp prec emax m e l)).
Proof.
  intros H. unfold shr_fexp, shr.
  assert (H0 : 0 <= shr_m (shr_record_of_loc m l)).
  { destruct l as [|[| |]]; exact H. }
  destruct (fexp prec emax (Zdigits2 m + e) - e); simpl; auto.
  apply iter_shr_1_nonneg, H0.
Qed.

Lemma round_nearest_even_nonneg (m : Z) (l : location) :
  0 <= m -> 0 <= round_nearest_even m l.
Proof.
  intros H. destruct l as [|[| |]]; simpl; try lia.
  destruct (Z.even m); lia.
Qed.

Lemma binary_round_aux_not_nan (s : bool) (m e : Z) (l : location) :
  0 <= m -> is_nan (binary_round_aux prec emax s m e l) = false.
Proof.
  intros H. unfold binary_round_aux.
  pose proof (shr_fexp_nonneg m e l H) as H1.
  destruct (shr_fexp prec emax m e l) as [mrs' e']. simpl in H1.
  pose proof (shr_fexp_nonneg _ e' loc_Exact
                (round_nearest_even_nonneg _ (loc_of_shr_record mrs') H1)) as H2.
  destruct (shr_fexp prec emax _ e' loc_Exact) as [mrs'' e'']. simpl in H2.
  destruct (shr_m mrs''); try lia; try reflexivity.
  destruct (e'' <=? _); reflexivity.
Qed.

Lemma binary_normalize_not_nan (m e : Z) (szero : bool) :
  is_nan (binary_normalize prec emax m e szero) = false.
Proof.
  destruct m; simpl; try reflexivity; unfold binary_round;
    destruct (shl_align _ _ _) as [mz ez];
    apply binary_round_aux_not_nan; lia.
Qed.

Lemma sub_finite_not_nan (a b : double) :
  is_finite a = true -> is_finite b = true -> is_nan (sub a b) = false.
Proof.
  destruct a as [sa|sa| |sa ma ea], b as [sb|sb| |sb mb eb]; try discriminate;
    intros _ _.
  - destruct sa, sb; reflexivity.
  - reflexivity.
  - reflexivity.
  - apply binary_normalize_not_nan.
Qed.

Lemma signed_as_false_nonneg (a : double) :
  signed_as false a -> is_nan a = false -> leb pos_zero a = true.
Proof.
  destruct a as [s|s| |s m e]; simpl; intros H N; subst; try reflexivity; discriminate.
Qed.

Lemma mul_signed (a b : double) :
  signed_as false a -> signed_as false b -> signed_as false (mul a b).
Proof.
  destruct a as [sa|sa| |sa ma ea], b as [sb|sb| |sb mb eb]; simpl;
    intros Ha Hb; subst; auto.
  apply binary_round_aux_sign.
Qed.

(** The difference between the larger and the smaller of two doubles. *)
Lemma extent_signed (a b : double) :
  valid a = true -> valid b = true ->
  signed_as false (std_max a b - std_min a b).
Proof.
  intros Va Vb. destruct (std_min_max_order a b) as [H|[-> ->]].
  - apply sub_lt_signed; auto using std_min_valid, std_max_valid.
  - apply sub_diag_signed.
Qed.

Lemma std_min_finite (a b : double) :
  is_finite a = true -> is_finite b = true -> is_finite (std_min a b) = true.
Proof. unfold std_min. destruct (ltb b a); auto. Qed.

Lemma std_max_finite (a b : double) :
  is_finite a = true -> is_finite b = true -> is_finite (std_max a b) = true.
Proof. unfold std_max. destruct (ltb a b); auto. Qed.

Lemma extent_nonneg (a b : double) :
  valid a = true -> valid b = true ->
  is_finite a = true -> is_finite b = true ->
  leb pos_zero (std_max a b - std_min a b) = true.
Proof.
  intros Va Vb Fa Fb. apply signed_as_false_nonneg.
  - apply extent_signed; assumption.
  - apply sub_finite_not_nan; auto using std_min_finite, std_max_finite.
Qed.

Lemma extent_swap (a b : double) :
  is_nan a = false -> is_nan b = false ->
  (std_max a b - std_min a b = std_max b a - std_min b a)%dbl.
Proof.
  intros Na Nb.
  destruct (std_min_max_swap a b Na Nb) as [[-> ->]|(-> & -> & -> & -> & [->|[Za Zb]])];
    try reflexivity.
  destruct a as [sa| | |], b as [sb| | |]; try discriminate.
  destruct sa, sb; reflexivity.
Qed.

Lemma centre_swap (a b : double) :
  is_nan a = false -> is_nan b = false ->
  same_number ((std_max a b + std_min a b) * half)%dbl
              ((std_max b a + std_min b a) * half)%dbl.
Proof.
  intros Na Nb.
  destruct (std_min_max_swap a b Na Nb) as [[-> ->]|(-> & -> & -> & -> & [->|[Za Zb]])];
    try apply same_number_refl.
  destruct a as [sa| | |], b as [sb| | |]; try discriminate.
  right. destruct sa, sb; split; reflexivity.
Qed.

Lemma std_min_swap (a b : double) :
  is_nan a = false -> is_nan b = false -> same_number (std_min a b) (std_min b a).
Proof.
  intros Na Nb.
  destruct (std_min_max_swap a b Na Nb) as [[-> _]|(-> & _ & -> & _ & H)];
    [apply same_number_refl | exact H].
Qed.

Lemma std_max_swap (a b : double) :
  is_nan a = false -> is_nan b = false -> same_number (std_max a b) (std_max b a).
Proof.
  intros Na Nb.
  destruct (std_min_max_swap a b Na Nb) as [[_ ->]|(_ & -> & _ & -> & H)];
    [apply same_number_refl | exact H].
Qed.

Lemma no_nan_inv (p : point2d) :
  no_nan p = true -> is_nan (x p) = false /\ is_nan (y p) = false.
Proof.
  unfold no_nan. intros H. apply andb_true_iff in H. destruct H as [H1 H2].
  apply negb_true_iff in H1, H2. auto.
Qed.

Lemma contains_unfold (r : rectangle) (px py : double) :
  contains r px py =
  negb (ltb px (left r)) && negb (ltb (right r) px) &&
  negb (ltb py (bottom r)) && negb (ltb (top r) py).
Proof.
  unfold contains.
  destruct (ltb px (left r)), (ltb (right r) px), (ltb py (bottom r)), (ltb (top r) py);
    reflexivity.
Qed.

Lemma not_ltb_iff_leb (a b : double) :
  is_nan a = false -> is_nan b = false ->
  (negb (ltb b a) = true <-> leb a b = true).
Proof.
  intros Na Nb. rewrite negb_true_iff. split.
  - apply not_ltb_leb; assumption.
  - apply leb_not_ltb.
Qed.

(** C10 (amended): for a rectangle and coordinates [x], [y] none of which is
    NaN, [contains(x, y)] is true exactly when [left() <= x <= right()] and
    [bottom() <= y <= top()]; the corners and the points of the edges are
    contained; and [contains(point2d)] is [contains] of the point's
    coordinates. *)
Theorem contains_spec (r : rectangle) (px py : double) :
  no_nan (m_first r) = true -> no_nan (m_second r) = true ->
  is_nan px = false -> is_nan py = false ->
  (contains r px py = true <->
     (left r <=? px)%dbl = true /\ (px <=? right r)%dbl = true /\
     (bottom r <=? py)%dbl = true /\ (py <=? top r)%dbl = true) /\
  contains r (left r) (bottom r) = true /\
  contains r (left r) (top r) = true /\
  contains r (right r) (bottom r) = true /\
  contains r (right r) (top r) = true /\
  ((bottom r <=? py)%dbl = true -> (py <=? top r)%dbl = true ->
     contains r (left r) py = true /\ contains r (right r) py = true) /\
  ((left r <=? px)%dbl = true -> (px <=? right r)%dbl = true ->
     contains r px (bottom r) = true /\ contains r px (top r) = true) /\
  contains_point r (mk_point px py) = contains r px py.
Proof.
  intros H1 H2 Nx Ny.
  apply no_nan_inv in H1, H2. destruct H1 as [N1x N1y], H2 as [N2x N2y].
  assert (NL : is_nan (left r) = false) by (apply std_min_not_nan; assumption).
  assert (NR : is_nan (right r) = false) by (apply std_max_not_nan; assumption).
  assert (NB : is_nan (bottom r) = false) by (apply std_min_not_nan; assumption).
  assert (NT : is_nan (top r) = false) by (apply std_max_not_nan; assumption).
  assert (LR : leb (left r) (right r) = true) by (apply std_min_le_max; assumption).
  assert (BT : leb (bottom r) (top r) = true) by (apply std_min_le_max; assumption).
  assert (iff : forall qx qy, is_nan qx = false -> is_nan qy = false ->
            (contains r qx qy = true <->
             leb (left r) qx = true /\ leb qx (right r) = true /\
             leb (bottom r) qy = true /\ leb qy (top r) = true)).
  { intros qx qy Nqx Nqy. rewrite contains_unfold, !andb_true_iff.
    rewrite !not_ltb_iff_leb by assumption. tauto. }
  split; [apply iff; assumption|].
  repeat split; intros; apply iff; auto using leb_refl.
Qed.

Lemma contains_spec_witness :
  no_nan (m_first (mk_rect (pt 0 0) (pt 4 4))) = true /\
  no_nan (m_second (mk_rect (pt 0 0) (pt 4 4))) = true /\
  is_nan one = false /\ is_nan two = false /\
  contains (mk_rect (pt 0 0) (pt 4 4)) one two = true /\
  contains (mk_rect (pt 0 0) (pt 4 4)) (left (mk_rect (pt 0 0) (pt 4 4))) two = true.
Proof.
  pose proof (contains_spec (mk_rect (pt 0 0) (pt 4 4)) one two
                eq_refl eq_refl eq_refl eq_refl) as (H1 & _ & _ & _ & _ & H2 & _).
  do 4 (split; [reflexivity|]).
  split.
  - apply H1. vm_compute. repeat split.
  - apply H2; vm_compute; reflexivity.
Defined.

(** C10, as stated, fails: every comparison with NaN is false, so a point
    with a NaN coordinate passes the four rejection tests and is contained,
    although [left() <= x] does not hold. *)
Lemma nan_point_is_contained :
  contains (rectangle_of_points (pt 0 0) (pt 1 1)) nan half = true /\
  (left (rectangle_of_points (pt 0 0) (pt 1 1)) <=? nan)%dbl = false.
Proof. vm_compute. repeat split. Qed.

Lemma left_swap (a b : point2d) :
  no_nan a = true -> no_nan b = true ->
  same_number (left (rectangle_of_points a b)) (left (rectangle_of_points b a)).
Proof.
  intros Ha Hb. apply no_nan_inv in Ha, Hb. apply std_min_swap; tauto.
Qed.

Lemma contains_swap (a b : point2d) (px py : double) :
  no_nan a = true -> no_nan b = true ->
  contains (rectangle_of_points a b) px py = contains (rectangle_of_points b a) px py.
Proof.
  intros Ha Hb. apply no_nan_inv in Ha, Hb. destruct Ha, Hb.
  rewrite !contains_unfold. unfold ltb, SFltb, left, right, bottom, top. simpl.
  rewrite (same_number_compare_r _ _ px (std_min_swap (x a) (x b) ltac:(assumption) ltac:(assumption))).
  rewrite (same_number_compare_l _ _ px (std_max_swap (x a) (x b) ltac:(assumption) ltac:(assumption))).
  rewrite (same_number_compare_r _ _ py (std_min_swap (y a) (y b) ltac:(assumption) ltac:(assumption))).
  rewrite (same_number_compare_l _ _ py (std_max_swap (y a) (y b) ltac:(assumption) ltac:(assumption))).
  reflexivity.
Qed.

(** C9 (amended): for construction points [a] and [b] without a NaN coordinate,
    [left() <= right()] and [bottom() <= top()]; [rectangle(a, b)] and
    [rectangle(b, a)] have the same left, right, bottom, top and centre up to
    the sign of a zero, identical width, height and area, and contain the same
    points, and they compare equal under [operator==] exactly when [a == b]
    and [b == a].  For binary64 coordinates width, height and area are never
    negative, and for finite ones width and height are [>= 0] and the area is
    [>= 0] or NaN.  [rectangle(origin, width, height)] is the rectangle of
    [origin] and [origin] offset by the size, of any sign, so the same holds
    for it when the offset corner has no NaN coordinate. *)
Theorem rectangle_invariants (a b : point2d) :
  no_nan a = true -> no_nan b = true ->
  let r := rectangle_of_points a b in
  let r' := rectangle_of_points b a in
  ((left r <=? right r)%dbl = true /\ (bottom r <=? top r)%dbl = true) /\
  (same_number (left r) (left r') /\ same_number (right r) (right r') /\
   same_number (bottom r) (bottom r') /\ same_number (top r) (top r')) /\
  (width r = width r' /\ height r = height r' /\ area r = area r') /\
  (same_number (centre_x r) (centre_x r') /\ same_number (centre_y r) (centre_y r')) /\
  (forall px py, contains r px py = contains r' px py) /\
  rectangle_eqb r r' = point_eqb a b && point_eqb b a /\
  (binary64_point a = true -> binary64_point b = true ->
     (width r <? pos_zero)%dbl = false /\ (height r <? pos_zero)%dbl = false /\
     (area r <? pos_zero)%dbl = false) /\
  (binary64_point a = true -> binary64_point b = true ->
   finite_point a = true -> finite_point b = true ->
     (pos_zero <=? width r)%dbl = true /\ (pos_zero <=? height r)%dbl = true /\
     ((pos_zero <=? area r)%dbl = true \/ is_nan (area r) = true)) /\
  (forall w h : double, b = point_offset a w h -> rectangle_of_size a w h = r).
Proof.
  intros Ha Hb r r'.
  pose proof (no_nan_inv a Ha) as [Nax Nay].
  pose proof (no_nan_inv b Hb) as [Nbx Nby].
  assert (W : width r = width r') by (apply extent_swap; assumption).
  assert (H : height r = height r') by (apply extent_swap; assumption).
  split; [split; apply std_min_le_max; assumption|].
  split; [repeat split; first [apply std_min_swap | apply std_max_swap]; assumption|].
  split; [repeat split; try assumption; unfold area; rewrite W, H; reflexivity|].
  split; [split; apply centre_swap; assumption|].
  split; [intros px py; apply contains_swap; assumption|].
  split; [reflexivity|].
  assert (S : binary64_point a = true -> binary64_point b = true ->
              signed_as false (width r) /\ signed_as false (height r)).
  { unfold binary64_point. rewrite !andb_true_iff. intros [Vax Vay] [Vbx Vby].
    split; apply extent_signed; assumption. }
  split; [|split; [|intros w h ->; reflexivity]].
  - intros Va Vb. destruct (S Va Vb) as [Sw Sh].
    repeat split; apply signed_as_false_not_negative; auto.
    apply mul_signed; assumption.
  - intros Va Vb Fa Fb. destruct (S Va Vb) as [Sw Sh].
    unfold binary64_point, finite_point in *.
    apply andb_true_iff in Va, Vb, Fa, Fb.
    destruct Va, Vb, Fa, Fb.
    split; [apply extent_nonneg; assumption|].
    split; [apply extent_nonneg; assumption|].
    destruct (is_nan (area r)) eqn:N; [right; reflexivity|left].
    apply signed_as_false_nonneg; [apply mul_signed|]; assumption.
Qed.

Lemma rectangle_invariants_witness :
  no_nan (pt 4 1) = true /\ no_nan (pt 1 3) = true /\
  binary64_point (pt 4 1) = true /\ binary64_point (pt 1 3) = true /\
  finite_point (pt 4 1) = true /\ finite_point (pt 1 3) = true /\
  (left (rectangle_of_points (pt 4 1) (pt 1 3))
   <=? right (rectangle_of_points (pt 4 1) (pt 1 3)))%dbl = true /\
  (pos_zero <=? width (rectangle_of_points (pt 4 1) (pt 1 3)))%dbl = true /\
  rectangle_of_size (pt 4 1) (of_Z (-3)) (of_Z 2) = rectangle_of_points (pt 4 1) (pt 1 3).
Proof.
  pose proof (rectangle_invariants (pt 4 1) (pt 1 3) eq_refl eq_refl)
    as ((H1 & _) & _ & _ & _ & _ & _ & _ & H2 & H3).
  do 6 (split; [reflexivity|]).
  split; [exact H1|].
  split; [exact (proj1 (H2 eq_refl eq_refl eq_refl eq_refl))|].
  apply H3. vm_compute. reflexivity.
Defined.

(** C9, as stated, fails: with a NaN coordinate in the first point the left
    edge is NaN, so [left() <= right()] is false and the two orders of the
    points disagree on the left edge; and for finite corners whose height
    overflows while the width is zero the area is NaN. *)
Lemma nan_corner_breaks_rectangle_order :
  (left (rectangle_of_points (mk_point nan pos_zero) (pt 1 1))
   <=? right (rectangle_of_points (mk_point nan pos_zero) (pt 1 1)))%dbl = false /\
  left (rectangle_of_points (mk_point nan pos_zero) (pt 1 1)) = nan /\
  left (rectangle_of_points (pt 1 1) (mk_point nan pos_zero)) = one /\
  area (rectangle_of_points (mk_point pos_zero (- DBL_MAX)) (mk_point pos_zero DBL_MAX))
  = nan.
Proof. vm_compute. repeat split. Qed.

Lemma fold_left_map {A B : Type} (f : B -> A -> B) (g : point2d -> A)
    (l : list point2d) (b : B) :
  fold_left (fun acc p => f acc (g p)) l b = fold_left f (map g l) b.
Proof. revert b. induction l as [|p l IH]; intros b; simpl; auto. Qed.

Lemma bounding_rectangle_poly (p0 p1 : point2d) (rest : list point2d) :
  poly_clip_rectangle p0 (p1 :: rest) = bounding_rectangle (Poly p0 p1 rest).
Proof.
  unfold poly_clip_rectangle, poly_x_min, poly_x_max, poly_y_min, poly_y_max.
  cbn [bounding_rectangle]. rewrite !fold_left_map. reflexivity.
Qed.



Lemma on_cairo_app (l1 l2 : list Cairo.call) (r : renderer) :
  on_cairo l2 (on_cairo l1 r) = on_cairo (l1 ++ l2) r.
Proof. unfold on_cairo. simpl. rewrite app_assoc. reflexivity. Qed.

Lemma on_cairo_nil (r : renderer) : on_cairo [] r = r.
Proof. destruct r. unfold on_cairo. simpl. rewrite app_nil_r. reflexivity. Qed.

Lemma fold_line_to (f : point2d -> point2d) (rest : list point2d)
    (l : list Cairo.call) (r : renderer) :
  fold_left
    (fun acc p => on_cairo [Cairo.cairo_line_to (x (f p)) (y (f p))] acc)
    rest (on_cairo l r)
  = on_cairo (l ++ map (fun p => Cairo.cairo_line_to (x p) (y p)) (map f rest)) r.
Proof.
  revert l. induction rest as [|p rest IH]; intros l; simpl.
  - rewrite app_nil_r. reflexivity.
  - rewrite on_cairo_app, IH, <- app_assoc. reflexivity.
Qed.

Lemma world_flag (r : renderer) (p : point2d) :
  (if t_coordinate_system_eqb (current_coordinate_system r) WORLD
   then m_transform r p else p) = to_screen r p.
Proof. unfold to_screen. destruct (current_coordinate_system r); reflexivity. Qed.

Lemma draw_line_calls (r : renderer) (s e : point2d) :
  rectangle_off_screen r (rectangle_of_points s e) = false ->
  draw_line r s e = line_calls r (to_screen r s) (to_screen r e).
Proof. intros H. unfold draw_line. rewrite H, !world_flag. reflexivity. Qed.

Lemma draw_rectangle_path_calls (r : renderer) (s e : point2d) (fill : bool) :
  draw_rectangle_path r s e fill = rectangle_calls r (to_screen r s) (to_screen r e) fill.
Proof.
  unfold draw_rectangle_path, rectangle_calls. rewrite !world_flag.
  destruct (x11_opaque r), fill; try reflexivity; rewrite on_cairo_app; reflexivity.
Qed.

Lemma fill_poly_calls (r : renderer) (p0 p1 : point2d) (rest : list point2d) :
  rectangle_off_screen r (poly_clip_rectangle p0 (p1 :: rest)) = false ->
  fill_poly r (p0 :: p1 :: rest)
  = Some (poly_calls r (to_screen r p0) (map (to_screen r) (p1 :: rest))).
Proof.
  intros H. cbn [fill_poly]. rewrite H. unfold poly_calls.
  destruct (x11_opaque r).
  - f_equal. f_equal. f_equal.
    rewrite length_map.
    change (to_screen r p0 :: map (to_screen r) (p1 :: rest))
      with (map (to_screen r) (p0 :: p1 :: rest)).
    rewrite map_map. f_equal. apply map_ext. intros q. rewrite world_flag. reflexivity.
  - f_equal. cbv zeta.
    rewrite (fold_line_to (fun p =>
               if t_coordinate_system_eqb (current_coordinate_system r) WORLD
               then m_transform r p else p)).
    rewrite on_cairo_app, world_flag, <- app_assoc.
    rewrite (map_ext _ (to_screen r) (world_flag r)).
    reflexivity.
Qed.

Lemma draw_arc_path_calls (r : renderer) (c : point2d)
    (radius sa ea stretch : double) (fill : bool) :
  draw_arc_path r c radius sa ea stretch fill
  = arc_calls r (to_screen r c) (to_screen r (mk_point (x c + radius) (y c)))
      sa ea stretch fill.
Proof.
  unfold draw_arc_path, arc_calls. rewrite !world_flag. cbn [x y].
  destruct (x11_opaque r); [destruct fill; reflexivity|].
  destruct fill, (pos_zero <=? ea)%dbl; rewrite ?on_cairo_app; reflexivity.
Qed.

Lemma draw_surface_calls (r : renderer) (s : Cairo.cairo_surface_t) (tl : point2d) :
  drawable (Surface s tl) = true ->
  rectangle_off_screen r (bounding_rectangle (Surface s tl)) = false ->
  draw_surface r s tl = surface_calls r s (to_screen r tl).
Proof.
  cbn [drawable bounding_rectangle]. intros D H. unfold draw_surface.
  rewrite D. cbn [negb].
  unfold rectangle_of_size, point_offset. cbn [x y]. rewrite H, world_flag.
  reflexivity.
Qed.

Lemma draw_as_screen_calls (r : renderer) (p : primitive) :
  drawable p = true ->
  rectangle_off_screen r (bounding_rectangle p) = false ->
  draw r p = Some (screen_calls r (to_screen r) p).
Proof.
  intros D H.
  destruct p as [s e|s e f|s w h f|rect f|p0 p1 rest|c rad sa ea f|c rx ry sa ea f|s tl].
  - cbn [draw screen_calls]. f_equal. apply draw_line_calls, H.
  - destruct f; cbn [draw screen_calls bounding_rectangle] in *; f_equal;
      unfold draw_rectangle, fill_rectangle, rectangle_of_points; rewrite H;
      apply draw_rectangle_path_calls.
  - destruct f; cbn [draw screen_calls bounding_rectangle] in *; f_equal;
      unfold draw_rectangle_size, fill_rectangle_size, rectangle_of_points; rewrite H;
      apply draw_rectangle_path_calls.
  - destruct f; cbn [draw screen_calls bounding_rectangle] in *; f_equal;
      unfold draw_rectangle_rect, fill_rectangle_rect, rectangle_of_points; rewrite H;
      apply draw_rectangle_path_calls.
  - rewrite <- bounding_rectangle_poly in H. cbn [draw screen_calls].
    apply fill_poly_calls, H.
  - destruct f; cbn [draw screen_calls bounding_rectangle] in *; f_equal;
      unfold draw_arc, fill_arc, rectangle_of_points; rewrite H;
      apply draw_arc_path_calls.
  - destruct f; cbn [draw screen_calls bounding_rectangle] in *; f_equal;
      unfold draw_elliptic_arc, fill_elliptic_arc, rectangle_of_points; rewrite H;
      apply draw_arc_path_calls.
  - cbn [draw screen_calls]. f_equal. apply draw_surface_calls; assumption.
Qed.



(** C1: [rectangle_off_screen] answers false whenever the coordinate system is
    SCREEN; in WORLD it answers true exactly when the rectangle lies wholly to
    the left of, to the right of, below or above the visible world:
    [rect.right() < visible.left()], [rect.left() > visible.right()],
    [rect.top() < visible.bottom()] or [rect.bottom() > visible.top()]. *)
Theorem rectangle_off_screen_spec (r : renderer) (rect : rectangle) :
  (current_coordinate_system r = SCREEN -> rectangle_off_screen r rect = false) /\
  (current_coordinate_system r = WORLD ->
     (rectangle_off_screen r rect = true <->
        (right rect <? left (get_visible_world r))%dbl = true \/
        (left rect >? right (get_visible_world r))%dbl = true \/
        (top rect <? bottom (get_visible_world r))%dbl = true \/
        (bottom rect >? top (get_visible_world r))%dbl = true)).
Proof.
  unfold rectangle_off_screen. split; intros C; rewrite C; cbn [t_coordinate_system_eqb].
  - reflexivity.
  - destruct (right rect <? left (get_visible_world r))%dbl;
      [intuition auto|].
    destruct (left rect >? right (get_visible_world r))%dbl;
      [intuition auto|].
    destruct (top rect <? bottom (get_visible_world r))%dbl;
      [intuition auto|].
    destruct (bottom rect >? top (get_visible_world r))%dbl;
      [intuition auto|].
    intuition discriminate.
Qed.

Lemma rectangle_off_screen_spec_witness :
  current_coordinate_system sample_renderer = WORLD /\
  rectangle_off_screen sample_renderer (mk_rect (pt 200 200) (pt 300 300)) = true.
Proof.
  split; [reflexivity|].
  apply (proj2 (proj2 (rectangle_off_screen_spec sample_renderer
                         (mk_rect (pt 200 200) (pt 300 300))) eq_refl)).
  right; left. vm_compute. reflexivity.
Defined.

(** C5: [get_visible_world] is the camera's world rectangle moved outwards by
    one margin on both corners: the margin is the screen rectangle's
    bottom-left corner times the world scale factor, subtracted from the
    world's bottom-left corner and added to its top-right corner. *)
Theorem get_visible_world_spec (r : renderer) :
  let world := get_world (m_camera r) in
  let screen := get_screen (m_camera r) in
  let scale := get_world_scale_factor (m_camera r) in
  get_visible_world r =
  rectangle_of_points
    (mk_point (left world - left screen * x scale) (bottom world - bottom screen * y scale))
    (mk_point (right world + left screen * x scale) (top world + bottom screen * y scale)).
Proof. reflexivity. Qed.

Lemma draw_text_bounded_cases (E : externals) (r : renderer) (center : point2d)
    (text : string) (bound_x bound_y : double) :
  draw_text_bounded E r center text bound_x bound_y =
  if text_off_screen r center bound_x bound_y then r
  else if text_exceeds_bounds E r text bound_x bound_y then r
  else
    let ref_point :=
      text_reference_point E r (to_screen r center) text (rotation_angle r) in
    on_cairo [Cairo.cairo_save;
              Cairo.cairo_move_to (x ref_point) (y ref_point);
              Cairo.cairo_rotate (rotation_angle r);
              Cairo.cairo_show_text text;
              Cairo.cairo_restore] r.
Proof.
  unfold draw_text_bounded, text_off_screen, text_exceeds_bounds, scaled_width,
    scaled_height.
  destruct (rectangle_off_screen r _); [reflexivity|].
  destruct (_ || _); [reflexivity|].
  rewrite world_flag, !on_cairo_app. reflexivity.
Qed.

(** C7: a new renderer has rotation angle 0; [set_text_rotation(degrees)] stores
    [-degrees * M_PI / 180]; and a text that is neither off screen nor over
    its bounds is then drawn with that angle, both in the reference point it
    is moved to and in the [cairo_rotate] call before [cairo_show_text]. *)
Theorem text_rotation_spec (E : externals) (init : member_initialisers)
    (cairo : Cairo.cairo_t) (transform : point2d -> point2d) (cam : camera)
    (r : renderer) (degrees : double) (center : point2d) (text : string)
    (bound_x bound_y : double) :
  rotation_angle (renderer_new init cairo transform cam) = pos_zero /\
  rotation_angle (set_text_rotation r degrees) = ((- degrees) * M_PI / d180)%dbl /\
  (text_off_screen r center bound_x bound_y = false ->
   text_exceeds_bounds E r text bound_x bound_y = false ->
   let r' := set_text_rotation r degrees in
   let angle := ((- degrees) * M_PI / d180)%dbl in
   let ref_point := text_reference_point E r (to_screen r center) text angle in
   draw_text_bounded E r' center text bound_x bound_y =
   on_cairo [Cairo.cairo_save;
             Cairo.cairo_move_to (x ref_point) (y ref_point);
             Cairo.cairo_rotate angle;
             Cairo.cairo_show_text text;
             Cairo.cairo_restore] r').
Proof.
  split; [reflexivity|]. split; [reflexivity|].
  intros H1 H2 r' angle ref_point.
  rewrite draw_text_bounded_cases.
  change (text_off_screen r' center bound_x bound_y)
    with (text_off_screen r center bound_x bound_y).
  change (text_exceeds_bounds E r' text bound_x bound_y)
    with (text_exceeds_bounds E r text bound_x bound_y).
  rewrite H1, H2. reflexivity.
Qed.

Lemma text_rotation_spec_witness :
  text_off_screen sample_renderer (pt 50 50) (of_Z 100) (of_Z 100) = false /\
  text_exceeds_bounds sample_externals sample_renderer "label" (of_Z 100) (of_Z 100)
  = false /\
  m_cairo (draw_text_bounded sample_externals
             (set_text_rotation sample_renderer (of_Z 90)) (pt 50 50) "label"
             (of_Z 100) (of_Z 100))
  = [Cairo.cairo_save;
     Cairo.cairo_move_to (of_Z 80) (of_Z 95);
     Cairo.cairo_rotate (- (M_PI / two));
     Cairo.cairo_show_text "label";
     Cairo.cairo_restore].
Proof.
  split; [vm_compute; reflexivity|]. split; [vm_compute; reflexivity|].
  rewrite (proj2 (proj2 (text_rotation_spec sample_externals
                           (mk_initialisers WORLD None) [] sample_transform
                           sample_camera sample_renderer (of_Z 90) (pt 50 50)
                           "label" (of_Z 100) (of_Z 100)))).
  - vm_compute. reflexivity.
  - vm_compute. reflexivity.
  - vm_compute. reflexivity.
Defined.

Lemma valid_finite_bounds (s : bool) (m : positive) (e : Z) :
  valid (S754_finite s m e) = true -> Z.pos m < 2 ^ 53 /\ e <= 971.
Proof.
  intros V. pose proof (valid_finite s m e V) as (D & _ & _).
  unfold valid, valid_binary, bounded in V. apply andb_true_iff in V.
  destruct V as [_ V]. apply Z.leb_le in V. unfold emax, prec in V.
  split; [|lia].
  pose proof (digits2_pos_bounds m) as [_ B].
  eapply Z.lt_le_trans; [exact B|]. apply Z.pow_le_mono_r; lia.
Qed.

Lemma above_DBL_MAX (a : double) :
  valid a = true -> ((a >? DBL_MAX)%dbl = true <-> a = pos_inf).
Proof.
  intros V. unfold gtb, SFltb, DBL_MAX, pos_inf.
  destruct a as [s|s| |s m e].
  - simpl. split; discriminate.
  - destruct s; simpl; split; try discriminate; reflexivity.
  - simpl. split; discriminate.
  - apply valid_finite_bounds in V. destruct V as [M Ex].
    change (2 ^ 53) with 9007199254740992 in M.
    unfold SFcompare. rewrite compare_cont_is_compare.
    destruct s; [split; discriminate|].
    destruct (Z.compare_spec 971 e) as [He|He|He].
    + destruct (Pos.compare_spec 9007199254740991 m) as [Hm|Hm|Hm];
        [split; discriminate | exfalso; lia | split; discriminate].
    + exfalso; lia.
    + split; discriminate.
Qed.

Lemma on_cairo_changes (l : list Cairo.call) (r : renderer) :
  l <> [] -> on_cairo l r <> r.
Proof.
  intros N H. apply (f_equal m_cairo) in H. cbn [m_cairo on_cairo] in H.
  apply (f_equal (@List.length _)) in H. rewrite length_app in H.
  destruct l; [congruence|]. cbn [List.length] in H. lia.
Qed.

Lemma draw_text_bounded_suppressed (E : externals) (r : renderer) (center : point2d)
    (text : string) (bound_x bound_y : double) :
  text_off_screen r center bound_x bound_y = false ->
  (draw_text_bounded E r center text bound_x bound_y = r <->
   text_exceeds_bounds E r text bound_x bound_y = true).
Proof.
  intros O. rewrite draw_text_bounded_cases, O.
  destruct (text_exceeds_bounds E r text bound_x bound_y).
  - split; reflexivity.
  - split; [|discriminate]. intros H. exfalso.
    revert H. apply on_cairo_changes. discriminate.
Qed.

(** C3 (amended): the bounded [draw_text] issues nothing when the scaled text
    width exceeds [bound_x] or the scaled height exceeds [bound_y] (no
    rotation is taken into account), and a text that is not off screen is
    suppressed in no other case; [draw_text(center, text)] is
    [draw_text(center, text, DBL_MAX, DBL_MAX)], and, the scaled extents being
    binary64 numbers, it is suppressed by the bound check exactly when one of
    them is +infinity: for finite and for NaN extents the text is drawn. *)
Theorem draw_text_bound_check (E : externals) (r : renderer) (center : point2d)
    (text : string) (bound_x bound_y : double) :
  ((scaled_width E r text >? bound_x)%dbl = true \/
   (scaled_height E r text >? bound_y)%dbl = true ->
   draw_text_bounded E r center text bound_x bound_y = r) /\
  draw_text E r center text = draw_text_bounded E r center text DBL_MAX DBL_MAX /\
  (valid (scaled_width E r text) = true -> valid (scaled_height E r text) = true ->
   (text_exceeds_bounds E r text DBL_MAX DBL_MAX = true <->
    scaled_width E r text = pos_inf \/ scaled_height E r text = pos_inf)) /\
  (text_off_screen r center bound_x bound_y = false ->
   (draw_text_bounded E r center text bound_x bound_y = r <->
    (scaled_width E r text >? bound_x)%dbl = true \/
    (scaled_height E r text >? bound_y)%dbl = true)) /\
  (text_off_screen r center DBL_MAX DBL_MAX = false ->
   valid (scaled_width E r text) = true -> valid (scaled_height E r text) = true ->
   (draw_text E r center text = r <->
    scaled_width E r text = pos_inf \/ scaled_height E r text = pos_inf) /\
   (scaled_width E r text <> pos_inf -> scaled_height E r text <> pos_inf ->
    m_cairo (draw_text E r center text)
    = m_cairo r
      ++ [Cairo.cairo_save;
          Cairo.cairo_move_to
            (x (text_reference_point E r (to_screen r center) text (rotation_angle r)))
            (y (text_reference_point E r (to_screen r center) text (rotation_angle r)));
          Cairo.cairo_rotate (rotation_angle r);
          Cairo.cairo_show_text text;
          Cairo.cairo_restore])).
Proof.
  assert (X : valid (scaled_width E r text) = true ->
              valid (scaled_height E r text) = true ->
              (text_exceeds_bounds E r text DBL_MAX DBL_MAX = true <->
               scaled_width E r text = pos_inf \/ scaled_height E r text = pos_inf)).
  { intros Vw Vh. unfold text_exceeds_bounds. rewrite orb_true_iff.
    rewrite (above_DBL_MAX _ Vw), (above_DBL_MAX _ Vh). reflexivity. }
  split; [|split; [reflexivity|split; [exact X|split]]].
  - intros H. rewrite draw_text_bounded_cases.
    destruct (text_off_screen r center bound_x bound_y); [reflexivity|].
    unfold text_exceeds_bounds.
    destruct H as [-> | ->]; rewrite ?orb_true_r; reflexivity.
  - intros O. rewrite (draw_text_bounded_suppressed E r center text _ _ O).
    unfold text_exceeds_bounds. apply orb_true_iff.
  - intros O Vw Vh. split.
    + unfold draw_text.
      rewrite (draw_text_bounded_suppressed E r center text _ _ O).
      exact (X Vw Vh).
    + intros Nw Nh. unfold draw_text. rewrite draw_text_bounded_cases, O.
      destruct (text_exceeds_bounds E r text DBL_MAX DBL_MAX) eqn:T.
      * destruct (proj1 (X Vw Vh) eq_refl); contradiction.
      * reflexivity.
Qed.

Lemma draw_text_bound_check_witness :
  (scaled_width sample_externals sample_renderer "label" >? of_Z 10)%dbl = true /\
  draw_text_bounded sample_externals sample_renderer (pt 50 50) "label"
    (of_Z 10) (of_Z 10) = sample_renderer /\
  valid (scaled_width sample_externals sample_renderer "label") = true /\
  valid (scaled_height sample_externals sample_renderer "label") = true /\
  (text_exceeds_bounds sample_externals sample_renderer "label" DBL_MAX DBL_MAX = true <->
   scaled_width sample_externals sample_renderer "label" = pos_inf \/
   scaled_height sample_externals sample_renderer "label" = pos_inf) /\
  text_off_screen sample_renderer (pt 50 50) DBL_MAX DBL_MAX = false /\
  draw_text sample_externals sample_renderer (pt 50 50) "label" <> sample_renderer /\
  List.length (m_cairo (draw_text sample_externals sample_renderer (pt 50 50) "label"))
  = 5%nat.
Proof.
  pose proof (draw_text_bound_check sample_externals sample_renderer (pt 50 50)
                "label" (of_Z 10) (of_Z 10)) as (H1 & _ & H3 & _ & H5).
  assert (Vw : valid (scaled_width sample_externals sample_renderer "label") = true)
    by (vm_compute; reflexivity).
  assert (Vh : valid (scaled_height sample_externals sample_renderer "label") = true)
    by (vm_compute; reflexivity).
  assert (O : text_off_screen sample_renderer (pt 50 50) DBL_MAX DBL_MAX = false)
    by (vm_compute; reflexivity).
  assert (Nw : scaled_width sample_externals sample_renderer "label" <> pos_inf)
    by (vm_compute; discriminate).
  assert (Nh : scaled_height sample_externals sample_renderer "label" <> pos_inf)
    by (vm_compute; discriminate).
  split; [vm_compute; reflexivity|].
  split; [apply H1; left; vm_compute; reflexivity|].
  split; [exact Vw|]. split; [exact Vh|].
  split; [exact (H3 Vw Vh)|]. split; [exact O|].
  destruct (H5 O Vw Vh) as [I L]. split.
  - intros D. apply I in D. destruct D; contradiction.
  - rewrite (L Nw Nh). reflexivity.
Defined.

(** C3, as stated, fails: with a world scale factor of +infinity along x the
    scaled width of any text of positive width is +infinity, which exceeds
    [DBL_MAX], so the bound check suppresses the unbounded [draw_text]. *)
Lemma unbounded_text_can_be_suppressed :
  text_off_screen degenerate_renderer (pt 10 10) DBL_MAX DBL_MAX = false /\
  text_exceeds_bounds sample_externals degenerate_renderer "label" DBL_MAX DBL_MAX
  = true /\
  draw_text sample_externals degenerate_renderer (pt 10 10) "label"
  = degenerate_renderer.
Proof.
  assert (H1 : text_off_screen degenerate_renderer (pt 10 10) DBL_MAX DBL_MAX = false)
    by (vm_compute; reflexivity).
  assert (H2 : text_exceeds_bounds sample_externals degenerate_renderer "label"
                 DBL_MAX DBL_MAX = true) by (vm_compute; reflexivity).
  split; [exact H1|]. split; [exact H2|].
  unfold draw_text. rewrite draw_text_bounded_cases, H1, H2. reflexivity.
Qed.

(** C6 (amended): [draw_png] and [draw_surface] absorb a bad surface status:
    when the PNG load, or the surface handed in, reports anything but
    [CAIRO_STATUS_SUCCESS], they return without issuing a call and without
    changing the renderer; both return [void], so nothing is reported. *)
Theorem bad_surface_is_skipped_silently (E : externals) (r : renderer)
    (file_path : string) (surface : Cairo.cairo_surface_t) (top_left : point2d) :
  (Cairo.cairo_surface_status (cairo_image_surface_create_from_png E file_path)
     <> Cairo.CAIRO_STATUS_SUCCESS ->
   draw_png E r file_path top_left = r) /\
  (Cairo.cairo_surface_status surface <> Cairo.CAIRO_STATUS_SUCCESS ->
   draw_surface r surface top_left = r).
Proof.
  split; intros H; apply Z.eqb_neq in H.
  - unfold draw_png. rewrite H. reflexivity.
  - unfold draw_surface. rewrite H. reflexivity.
Qed.

Lemma bad_surface_is_skipped_silently_witness :
  Cairo.cairo_surface_status
    (cairo_image_surface_create_from_png sample_externals "absent.png")
  <> Cairo.CAIRO_STATUS_SUCCESS /\
  draw_png sample_externals sample_renderer "absent.png" (pt 10 10) = sample_renderer /\
  Cairo.cairo_surface_status missing_image <> Cairo.CAIRO_STATUS_SUCCESS /\
  draw_surface sample_renderer missing_image (pt 10 10) = sample_renderer.
Proof.
  pose proof (bad_surface_is_skipped_silently sample_externals sample_renderer
                "absent.png" missing_image (pt 10 10)) as [H1 H2].
  assert (N1 : Cairo.cairo_surface_status
                 (cairo_image_surface_create_from_png sample_externals "absent.png")
               <> Cairo.CAIRO_STATUS_SUCCESS) by (vm_compute; discriminate).
  assert (N2 : Cairo.cairo_surface_status missing_image <> Cairo.CAIRO_STATUS_SUCCESS)
    by (vm_compute; discriminate).
  split; [exact N1|]. split; [exact (H1 N1)|]. split; [exact N2|exact (H2 N2)].
Defined.

(** C6, as stated, fails: a load that reports [CAIRO_STATUS_FILE_NOT_FOUND]
    leaves the caller with exactly what a successful load of an image that is
    culled leaves, the renderer as it was; the failure is not surfaced. *)
Lemma failed_png_load_goes_unreported :
  Cairo.cairo_surface_status
    (cairo_image_surface_create_from_png sample_externals "absent.png")
  = Cairo.CAIRO_STATUS_FILE_NOT_FOUND /\
  draw_png sample_externals sample_renderer "absent.png" (pt 10 10) = sample_renderer /\
  Cairo.cairo_surface_status
    (cairo_image_surface_create_from_png sample_externals "logo.png")
  = Cairo.CAIRO_STATUS_SUCCESS /\
  draw_png sample_externals sample_renderer "logo.png" (pt 500 500) = sample_renderer /\
  draw_surface sample_renderer missing_image (pt 10 10) = sample_renderer.
Proof.
  assert (H : rectangle_off_screen sample_renderer
                (bounding_rectangle (Surface sample_image (pt 500 500))) = true)
    by (vm_compute; reflexivity).
  split; [reflexivity|]. split; [reflexivity|]. split; [reflexivity|].
  split; [|reflexivity].
  change (draw_png sample_externals sample_renderer "logo.png" (pt 500 500))
    with (draw_surface sample_renderer sample_image (pt 500 500)).
  unfold draw_surface. cbn [negb Cairo.cairo_surface_status sample_image Z.eqb
                              Cairo.CAIRO_STATUS_SUCCESS].
  unfold rectangle_of_size, point_offset. cbn [x y].
  cbn [bounding_rectangle] in H. rewrite H. reflexivity.
Qed.

(** * Further properties *)

Lemma SFcompare_key (a b : double) :
  is_nan a = false -> is_nan b = false ->
  SFcompare a b = Some (key_compare (order_key a) (order_key b)).
Proof.
  destruct a as [sa|sa| |sa ma ea], b as [sb|sb| |sb mb eb];
    intros Na Nb; try discriminate;
    try (destruct sa; reflexivity);
    try (destruct sb; reflexivity);
    try (destruct sa, sb; reflexivity).
  unfold SFcompare, order_key, key_compare.
  rewrite compare_cont_is_compare.
  destruct sa, sb; try reflexivity.
  change (-1 ?= -1) with Eq. cbv iota.
  rewrite Z.compare_opp, (Z.compare_antisym ea eb).
  destruct (ea ?= eb); reflexivity.
Qed.

Lemma key_compare_Lt (k1 k2 : Z * Z * Z) :
  key_compare k1 k2 = Lt <->
  let '(c1, e1, m1) := k1 in
  let '(c2, e2, m2) := k2 in
  c1 < c2 \/ (c1 = c2 /\ (e1 < e2 \/ (e1 = e2 /\ m1 < m2))).
Proof.
  destruct k1 as [[c1 e1] m1], k2 as [[c2 e2] m2]. unfold key_compare.
  destruct (Z.compare_spec c1 c2); [|split; intros; [lia|reflexivity]|split; intros; [discriminate|lia]].
  destruct (Z.compare_spec e1 e2); [|split; intros; [lia|reflexivity]|split; intros; [discriminate|lia]].
  destruct (Z.compare_spec m1 m2); split; intros; try discriminate; try reflexivity; lia.
Qed.

Lemma key_compare_Gt (k1 k2 : Z * Z * Z) :
  key_compare k1 k2 = Gt <-> key_compare k2 k1 = Lt.
Proof.
  destruct k1 as [[c1 e1] m1], k2 as [[c2 e2] m2]. unfold key_compare.
  rewrite (Z.compare_antisym c1 c2), (Z.compare_antisym e1 e2), (Z.compare_antisym m1 m2).
  destruct (c1 ?= c2), (e1 ?= e2), (m1 ?= m2); simpl; split; intros; congruence.
Qed.

Lemma ltb_not_nan (a b : double) :
  ltb a b = true -> is_nan a = false /\ is_nan b = false.
Proof. unfold ltb, SFltb. destruct a, b; simpl; auto; discriminate. Qed.

Lemma ltb_key (a b : double) :
  ltb a b = true <->
  is_nan a = false /\ is_nan b = false /\ key_compare (order_key a) (order_key b) = Lt.
Proof.
  split.
  - intros H. destruct (ltb_not_nan a b H) as [Na Nb]. repeat split; auto.
    unfold ltb, SFltb in H. rewrite (SFcompare_key a b Na Nb) in H.
    destruct (key_compare _ _); try discriminate; reflexivity.
  - intros (Na & Nb & H). unfold ltb, SFltb.
    rewrite (SFcompare_key a b Na Nb), H. reflexivity.
Qed.

Lemma leb_key (a b : double) :
  leb a b = true <->
  is_nan a = false /\ is_nan b = false /\ key_compare (order_key b) (order_key a) <> Lt.
Proof.
  split.
  - intros H. destruct (leb_not_nan a b H) as [Na Nb]. repeat split; auto.
    apply leb_not_ltb in H. intros C.
    assert (ltb b a = true) by (apply ltb_key; auto). congruence.
  - intros (Na & Nb & H). apply not_ltb_leb; auto.
    destruct (ltb b a) eqn:L; auto. apply ltb_key in L. tauto.
Qed.

Lemma ltb_leb_trans (a b c : double) :
  ltb a b = true -> leb b c = true -> ltb a c = true.
Proof.
  rewrite !ltb_key, leb_key. intros (Na & Nb & H1) (_ & Nc & H2).
  repeat split; auto.
  rewrite key_compare_Lt in *.
  destruct (order_key a) as [[c1 e1] m1], (order_key b) as [[c2 e2] m2],
    (order_key c) as [[c3 e3] m3]. lia.
Qed.

Lemma leb_ltb_trans (a b c : double) :
  leb a b = true -> ltb b c = true -> ltb a c = true.
Proof.
  rewrite !ltb_key, leb_key. intros (Na & Nb & H1) (_ & Nc & H2).
  repeat split; auto.
  rewrite key_compare_Lt in *.
  destruct (order_key a) as [[c1 e1] m1], (order_key b) as [[c2 e2] m2],
    (order_key c) as [[c3 e3] m3]. lia.
Qed.

Lemma leb_trans (a b c : double) :
  leb a b = true -> leb b c = true -> leb a c = true.
Proof.
  rewrite !leb_key. intros (Na & Nb & H1) (_ & Nc & H2).
  repeat split; auto.
  rewrite key_compare_Lt in *.
  destruct (order_key a) as [[c1 e1] m1], (order_key b) as [[c2 e2] m2],
    (order_key c) as [[c3 e3] m3]. lia.
Qed.

(** ** What culling discards *)

Lemma contains_true (r : rectangle) (px py : double) :
  contains r px py = true ->
  ltb px (left r) = false /\ ltb (right r) px = false /\
  ltb py (bottom r) = false /\ ltb (top r) py = false.
Proof.
  rewrite contains_unfold, !andb_true_iff, !negb_true_iff. tauto.
Qed.

Lemma off_screen_excludes_point (r : renderer) (rect : rectangle)
    (px py : double) :
  rectangle_off_screen r rect = true ->
  is_nan px = false -> is_nan py = false ->
  contains rect px py = true ->
  contains (get_visible_world r) px py = false.
Proof.
  intros Off Nx Ny In.
  apply contains_true in In. destruct In as (I1 & I2 & I3 & I4).
  unfold rectangle_off_screen in Off.
  destruct (t_coordinate_system_eqb _ _); [discriminate|].
  rewrite contains_unfold.
  destruct (right rect <? left (get_visible_world r))%dbl eqn:C1.
  { destruct (ltb_not_nan _ _ C1) as [N _].
    rewrite (leb_ltb_trans px (right rect) _ (not_ltb_leb _ _ Nx N I2) C1).
    reflexivity. }
  destruct (left rect >? right (get_visible_world r))%dbl eqn:C2.
  { unfold gtb in C2. destruct (ltb_not_nan _ _ C2) as [_ N].
    rewrite (ltb_leb_trans _ (left rect) px C2 (not_ltb_leb _ _ N Nx I1)).
    rewrite andb_false_r. reflexivity. }
  destruct (top rect <? bottom (get_visible_world r))%dbl eqn:C3.
  { destruct (ltb_not_nan _ _ C3) as [N _].
    rewrite (leb_ltb_trans py (top rect) _ (not_ltb_leb _ _ Ny N I4) C3).
    rewrite andb_false_r. reflexivity. }
  destruct (bottom rect >? top (get_visible_world r))%dbl eqn:C4; [|discriminate].
  unfold gtb in C4. destruct (ltb_not_nan _ _ C4) as [_ N].
  rewrite (ltb_leb_trans _ (bottom rect) py C4 (not_ltb_leb _ _ N Ny I3)).
  rewrite andb_false_r. reflexivity.
Qed.

(** ** The clip rectangle of a polygon *)

Lemma std_min_le_l (a b : double) :
  is_nan a = false -> is_nan b = false -> leb (std_min a b) a = true.
Proof.
  intros Na Nb. unfold std_min. destruct (ltb b a) eqn:H.
  - apply ltb_leb, H.
  - apply leb_refl, Na.
Qed.

Lemma std_min_le_r (a b : double) :
  is_nan a = false -> is_nan b = false -> leb (std_min a b) b = true.
Proof.
  intros Na Nb. unfold std_min. destruct (ltb b a) eqn:H.
  - apply leb_refl, Nb.
  - apply not_ltb_leb; assumption.
Qed.

Lemma std_max_ge_l (a b : double) :
  is_nan a = false -> is_nan b = false -> leb a (std_max a b) = true.
Proof.
  intros Na Nb. unfold std_max. destruct (ltb a b) eqn:H.
  - apply ltb_leb, H.
  - apply leb_refl, Na.
Qed.

Lemma std_max_ge_r (a b : double) :
  is_nan a = false -> is_nan b = false -> leb b (std_max a b) = true.
Proof.
  intros Na Nb. unfold std_max. destruct (ltb a b) eqn:H.
  - apply leb_refl, Nb.
  - apply not_ltb_leb; assumption.
Qed.

Lemma fold_min_bounds (l : list double) (a : double) :
  is_nan a = false -> forallb (fun c => negb (is_nan c)) l = true ->
  is_nan (fold_left std_min l a) = false /\
  leb (fold_left std_min l a) a = true /\
  (forall c, In c l -> leb (fold_left std_min l a) c = true).
Proof.
  revert a. induction l as [|b l IH]; intros a Na Hl; simpl.
  - repeat split; auto using leb_refl; intros c [].
  - simpl in Hl. apply andb_true_iff in Hl. destruct Hl as [Nb Hl].
    apply negb_true_iff in Nb.
    destruct (IH (std_min a b) (std_min_not_nan a b Na Nb) Hl) as (N & Ha & Hc).
    split; [exact N|]. split.
    + eapply leb_trans; [exact Ha|]. apply std_min_le_l; assumption.
    + intros c [<-|Hin].
      * eapply leb_trans; [exact Ha|]. apply std_min_le_r; assumption.
      * apply Hc, Hin.
Qed.

Lemma fold_max_bounds (l : list double) (a : double) :
  is_nan a = false -> forallb (fun c => negb (is_nan c)) l = true ->
  is_nan (fold_left std_max l a) = false /\
  leb a (fold_left std_max l a) = true /\
  (forall c, In c l -> leb c (fold_left std_max l a) = true).
Proof.
  revert a. induction l as [|b l IH]; intros a Na Hl; simpl.
  - repeat split; auto using leb_refl; intros c [].
  - simpl in Hl. apply andb_true_iff in Hl. destruct Hl as [Nb Hl].
    apply negb_true_iff in Nb.
    destruct (IH (std_max a b) (std_max_not_nan a b Na Nb) Hl) as (N & Ha & Hc).
    split; [exact N|]. split.
    + eapply leb_trans; [|exact Ha]. apply std_max_ge_l; assumption.
    + intros c [<-|Hin].
      * eapply leb_trans; [|exact Ha]. apply std_max_ge_r; assumption.
      * apply Hc, Hin.
Qed.

Lemma contains_by_bounds (r : rectangle) (px py : double) :
  leb (left r) px = true -> leb px (right r) = true ->
  leb (bottom r) py = true -> leb py (top r) = true ->
  contains r px py = true.
Proof.
  intros H1 H2 H3 H4. rewrite contains_unfold.
  rewrite (leb_not_ltb _ _ H1), (leb_not_ltb _ _ H2),
    (leb_not_ltb _ _ H3), (leb_not_ltb _ _ H4). reflexivity.
Qed.

Lemma forallb_no_nan_map (l : list point2d) :
  forallb no_nan l = true ->
  forallb (fun c => negb (is_nan c)) (map x l) = true /\
  forallb (fun c => negb (is_nan c)) (map y l) = true.
Proof.
  induction l as [|p l IH]; simpl; [auto|].
  rewrite !andb_true_iff. unfold no_nan at 1. rewrite andb_true_iff.
  intros [[Hx Hy] Hl]. destruct (IH Hl). auto.
Qed.

Lemma poly_clip_rectangle_contains (p0 : point2d) (rest : list point2d)
    (p : point2d) :
  forallb no_nan (p0 :: rest) = true ->
  In p (p0 :: rest) ->
  contains_point (poly_clip_rectangle p0 rest) p = true.
Proof.
  intros Hn Hin. cbn [forallb] in Hn. apply andb_true_iff in Hn.
  destruct Hn as [H0 Hrest].
  apply no_nan_inv in H0. destruct H0 as [N0x N0y].
  apply forallb_no_nan_map in Hrest. destruct Hrest as [Hx Hy].
  destruct (fold_min_bounds (map x rest) (x p0) N0x Hx) as (Nxmin & Lx0 & Lx).
  destruct (fold_max_bounds (map x rest) (x p0) N0x Hx) as (Nxmax & Ux0 & Ux).
  destruct (fold_min_bounds (map y rest) (y p0) N0y Hy) as (Nymin & Ly0 & Ly).
  destruct (fold_max_bounds (map y rest) (y p0) N0y Hy) as (Nymax & Uy0 & Uy).
  unfold contains_point, poly_clip_rectangle, poly_x_min, poly_x_max,
    poly_y_min, poly_y_max, rectangle_of_points.
  rewrite !fold_left_map.
  assert (Bx : leb (fold_left std_min (map x rest) (x p0)) (x p) = true /\
               leb (x p) (fold_left std_max (map x rest) (x p0)) = true).
  { destruct Hin as [<-|Hin]; [auto|]. split; [apply Lx|apply Ux]; apply in_map, Hin. }
  assert (By : leb (fold_left std_min (map y rest) (y p0)) (y p) = true /\
               leb (y p) (fold_left std_max (map y rest) (y p0)) = true).
  { destruct Hin as [<-|Hin]; [auto|]. split; [apply Ly|apply Uy]; apply in_map, Hin. }
  destruct Bx as [Bx1 Bx2], By as [By1 By2].
  apply contains_by_bounds; unfold left, right, bottom, top; cbn [m_first m_second x y].
  - eapply leb_trans; [apply std_min_le_l; assumption|exact Bx1].
  - eapply leb_trans; [exact Bx2|apply std_max_ge_r; assumption].
  - eapply leb_trans; [apply std_min_le_l; assumption|exact By1].
  - eapply leb_trans; [exact By2|apply std_max_ge_r; assumption].
Qed.

Lemma in_no_nan (l : list point2d) (p : point2d) :
  forallb no_nan l = true -> In p l -> is_nan (x p) = false /\ is_nan (y p) = false.
Proof.
  intros H Hin. rewrite forallb_forall in H. apply no_nan_inv, H, Hin.
Qed.

Lemma corners_contained (a b : point2d) :
  no_nan a = true -> no_nan b = true ->
  contains_point (rectangle_of_points a b) a = true /\
  contains_point (rectangle_of_points a b) b = true.
Proof.
  intros Ha Hb. apply no_nan_inv in Ha, Hb. destruct Ha, Hb.
  split; apply contains_by_bounds; unfold left, right, bottom, top;
    cbn [rectangle_of_points m_first m_second];
    auto using std_min_le_l, std_min_le_r, std_max_ge_l, std_max_ge_r.
Qed.

(** X1: culling is sound: a rectangle that [rectangle_off_screen] rejects has
    no point (of coordinates other than NaN) in common with the visible
    world. *)
Theorem culled_rectangle_is_out_of_sight (r : renderer) (rect : rectangle)
    (px py : double) :
  rectangle_off_screen r rect = true ->
  is_nan px = false -> is_nan py = false ->
  contains rect px py = true ->
  contains (get_visible_world r) px py = false.
Proof. exact (off_screen_excludes_point r rect px py). Qed.

Lemma culled_rectangle_is_out_of_sight_witness :
  rectangle_off_screen sample_renderer (mk_rect (pt 200 200) (pt 300 300)) = true /\
  is_nan (of_Z 250) = false /\
  contains (mk_rect (pt 200 200) (pt 300 300)) (of_Z 250) (of_Z 250) = true /\
  contains (get_visible_world sample_renderer) (of_Z 250) (of_Z 250) = false.
Proof.
  split; [vm_compute; reflexivity|]. split; [reflexivity|].
  split; [vm_compute; reflexivity|].
  apply (culled_rectangle_is_out_of_sight sample_renderer
           (mk_rect (pt 200 200) (pt 300 300)));
    vm_compute; reflexivity.
Defined.

(** X2: the rectangle [fill_poly] computes for its clip test contains every
    vertex of the polygon, when no coordinate is NaN. *)
Theorem poly_clip_rectangle_holds_every_vertex (p0 : point2d) (rest : list point2d)
    (p : point2d) :
  forallb no_nan (p0 :: rest) = true ->
  In p (p0 :: rest) ->
  contains_point (poly_clip_rectangle p0 rest) p = true.
Proof. exact (poly_clip_rectangle_contains p0 rest p). Qed.

Lemma poly_clip_rectangle_holds_every_vertex_witness :
  forallb no_nan [pt 0 0; pt 4 1; pt 2 5] = true /\
  In (pt 4 1) [pt 0 0; pt 4 1; pt 2 5] /\
  contains_point (poly_clip_rectangle (pt 0 0) [pt 4 1; pt 2 5]) (pt 4 1) = true.
Proof.
  assert (H : In (pt 4 1) [pt 0 0; pt 4 1; pt 2 5]) by (right; left; reflexivity).
  split; [reflexivity|]. split; [exact H|].
  apply poly_clip_rectangle_holds_every_vertex; [reflexivity | exact H].
Defined.

(** X3: [fill_poly] only skips a polygon none of whose vertices is in the
    visible world (coordinates other than NaN). *)
Theorem culled_polygon_has_no_visible_vertex (r : renderer) (p0 p1 : point2d)
    (rest : list point2d) (p : point2d) :
  forallb no_nan (p0 :: p1 :: rest) = true ->
  rectangle_off_screen r (poly_clip_rectangle p0 (p1 :: rest)) = true ->
  In p (p0 :: p1 :: rest) ->
  fill_poly r (p0 :: p1 :: rest) = Some r /\
  contains_point (get_visible_world r) p = false.
Proof.
  intros Hn Off Hin. split.
  - cbn [fill_poly]. rewrite Off. reflexivity.
  - destruct (in_no_nan _ p Hn Hin) as [Nx Ny].
    apply (off_screen_excludes_point r _ (x p) (y p) Off Nx Ny).
    apply (poly_clip_rectangle_contains p0 (p1 :: rest) p Hn Hin).
Qed.

Lemma culled_polygon_has_no_visible_vertex_witness :
  forallb no_nan [pt 200 200; pt 300 200; pt 250 300] = true /\
  rectangle_off_screen sample_renderer
    (poly_clip_rectangle (pt 200 200) [pt 300 200; pt 250 300]) = true /\
  In (pt 300 200) [pt 200 200; pt 300 200; pt 250 300] /\
  fill_poly sample_renderer [pt 200 200; pt 300 200; pt 250 300] = Some sample_renderer /\
  contains_point (get_visible_world sample_renderer) (pt 300 200) = false.
Proof.
  assert (H : In (pt 300 200) [pt 200 200; pt 300 200; pt 250 300])
    by (right; left; reflexivity).
  assert (O : rectangle_off_screen sample_renderer
                (poly_clip_rectangle (pt 200 200) [pt 300 200; pt 250 300]) = true)
    by (vm_compute; reflexivity).
  split; [reflexivity|]. split; [exact O|]. split; [exact H|].
  apply culled_polygon_has_no_visible_vertex; [reflexivity | exact O | exact H].
Defined.

(** X4: when the rectangle of two points is off screen, [draw_line],
    [draw_rectangle] and [fill_rectangle] all skip, and neither point is in
    the visible world. *)
Theorem culled_line_has_no_visible_end (r : renderer) (start end_ : point2d) :
  no_nan start = true -> no_nan end_ = true ->
  rectangle_off_screen r (rectangle_of_points start end_) = true ->
  draw_line r start end_ = r /\
  draw_rectangle r start end_ = r /\
  fill_rectangle r start end_ = r /\
  contains_point (get_visible_world r) start = false /\
  contains_point (get_visible_world r) end_ = false.
Proof.
  intros Hs He Off.
  unfold draw_line, draw_rectangle, fill_rectangle. rewrite Off.
  do 3 (split; [reflexivity|]).
  destruct (corners_contained start end_ Hs He) as [Cs Ce].
  apply no_nan_inv in Hs, He. destruct Hs, He.
  split; eapply off_screen_excludes_point; eauto.
Qed.

Lemma culled_line_has_no_visible_end_witness :
  no_nan (pt 200 200) = true /\ no_nan (pt 300 300) = true /\
  rectangle_off_screen sample_renderer
    (rectangle_of_points (pt 200 200) (pt 300 300)) = true /\
  draw_line sample_renderer (pt 200 200) (pt 300 300) = sample_renderer /\
  contains_point (get_visible_world sample_renderer) (pt 200 200) = false.
Proof.
  assert (O : rectangle_off_screen sample_renderer
                (rectangle_of_points (pt 200 200) (pt 300 300)) = true)
    by (vm_compute; reflexivity).
  pose proof (culled_line_has_no_visible_end sample_renderer (pt 200 200) (pt 300 300)
                eq_refl eq_refl O) as (H1 & _ & _ & H2 & _).
  split; [reflexivity|]. split; [reflexivity|]. split; [exact O|].
  split; [exact H1 | exact H2].
Defined.

Lemma draw_culled (r : renderer) (p : primitive) :
  rectangle_off_screen r (bounding_rectangle p) = true -> draw r p = Some r.
Proof.
  intros H.
  destruct p as [s e|s e f|s w h f|rect f|p0 p1 rest|c rad sa ea f|c rx ry sa ea f|s tl].
  5: { rewrite <- (bounding_rectangle_poly p0 p1 rest) in H.
       cbn [draw fill_poly]. rewrite H. reflexivity. }
  7: { cbn [draw bounding_rectangle] in *. unfold draw_surface.
       destruct (negb _); [reflexivity|].
       unfold rectangle_of_size, point_offset. cbn [x y]. rewrite H. reflexivity. }
  all: try (destruct f); cbn [draw bounding_rectangle] in *;
    unfold draw_line, draw_rectangle, fill_rectangle, draw_rectangle_size,
      fill_rectangle_size, draw_rectangle_rect, fill_rectangle_rect, draw_arc,
      fill_arc, draw_elliptic_arc, fill_elliptic_arc, rectangle_of_points;
    rewrite H; reflexivity.
Qed.

Lemma draw_cases (r : renderer) (p : primitive) :
  draw r p = Some r \/
  (drawable p = true /\
   rectangle_off_screen r (bounding_rectangle p) = false /\
   draw r p = Some (screen_calls r (to_screen r) p)).
Proof.
  destruct (rectangle_off_screen r (bounding_rectangle p)) eqn:Off.
  - left. apply draw_culled, Off.
  - destruct (drawable p) eqn:D.
    + right. auto using draw_as_screen_calls.
    + left. destruct p; try discriminate. cbn [drawable] in D.
      cbn [draw]. unfold draw_surface. rewrite D. reflexivity.
Qed.

Lemma extends_refl (r : renderer) : extends r r.
Proof.
  repeat split; try reflexivity; exists []; rewrite app_nil_r; reflexivity.
Qed.

Lemma extends_on_cairo (l : list Cairo.call) (r : renderer) : extends r (on_cairo l r).
Proof.
  repeat split; try reflexivity.
  - exists l. reflexivity.
  - exists []. rewrite app_nil_r. reflexivity.
Qed.

Lemma extends_on_x11 (l : list Xlib.call) (r : renderer) : extends r (on_x11 l r).
Proof.
  unfold on_x11. destruct (x11 r) as [xs|] eqn:X; [|apply extends_refl].
  unfold extends, x11_settings, x11_calls. cbn. rewrite X.
  repeat split; try reflexivity.
  - exists []. rewrite app_nil_r. reflexivity.
  - exists l. reflexivity.
Qed.

Lemma extends_screen_calls (r : renderer) (f : point2d -> point2d) (p : primitive) :
  extends r (screen_calls r f p).
Proof.
  destruct p; cbn [screen_calls];
    unfold line_calls, rectangle_calls, poly_calls, arc_calls, surface_calls;
    try destruct (x11_opaque r); auto using extends_on_cairo, extends_on_x11.
Qed.

Lemma extends_draw_text_bounded (E : externals) (r : renderer) (center : point2d)
    (text : string) (bound_x bound_y : double) :
  extends r (draw_text_bounded E r center text bound_x bound_y).
Proof.
  rewrite draw_text_bounded_cases.
  destruct (text_off_screen _ _ _ _); [apply extends_refl|].
  destruct (text_exceeds_bounds _ _ _ _ _); [apply extends_refl|].
  apply extends_on_cairo.
Qed.

(** X5: no drawing function changes the transform, the camera, the rotation
    angle, the coordinate system or the X11 settings, and each only adds
    calls after those already issued on the Cairo context and the X11
    graphics context. *)
Theorem drawing_keeps_the_settings (E : externals) (r r' : renderer) (p : primitive)
    (center : point2d) (text : string) (bound_x bound_y : double) :
  (draw r p = Some r' -> extends r r') /\
  extends r (draw_text_bounded E r center text bound_x bound_y) /\
  extends r (draw_text E r center text).
Proof.
  split; [|split; apply extends_draw_text_bounded].
  intros H. destruct (draw_cases r p) as [C|(_ & _ & C)]; rewrite C in H;
    injection H as <-; [apply extends_refl | apply extends_screen_calls].
Qed.

Lemma drawing_keeps_the_settings_witness :
  draw sample_renderer (Line (pt 10 10) (pt 20 20))
  = Some (draw_line sample_renderer (pt 10 10) (pt 20 20)) /\
  extends sample_renderer (draw_line sample_renderer (pt 10 10) (pt 20 20)).
Proof.
  split; [reflexivity|].
  apply (proj1 (drawing_keeps_the_settings sample_externals sample_renderer
                  (draw_line sample_renderer (pt 10 10) (pt 20 20))
                  (Line (pt 10 10) (pt 20 20)) (pt 0 0) "label" one one)).
  reflexivity.
Defined.

Lemma calls_issued_on_cairo (l : list Cairo.call) (r : renderer) :
  calls_issued (on_cairo l r) = (calls_issued r + List.length l)%nat.
Proof. unfold calls_issued, on_cairo. cbn. rewrite length_app. lia. Qed.

Lemma calls_issued_on_x11 (l : list Xlib.call) (r : renderer) :
  x11_opaque r = true ->
  calls_issued (on_x11 l r) = (calls_issued r + List.length l)%nat.
Proof.
  unfold x11_opaque, calls_issued, on_x11.
  destruct (x11 r) as [xs|]; [|discriminate]. intros _. cbn.
  rewrite length_app. lia.
Qed.

Lemma screen_calls_issue (r : renderer) (f : point2d -> point2d) (p : primitive) :
  (calls_issued r < calls_issued (screen_calls r f p))%nat.
Proof.
  destruct p; cbn [screen_calls];
    unfold line_calls, rectangle_calls, poly_calls, arc_calls, surface_calls;
    try (destruct (x11_opaque r) eqn:X;
         [rewrite calls_issued_on_x11 by exact X|]);
    rewrite ?calls_issued_on_cairo; cbn [List.length]; rewrite ?length_app;
    cbn [List.length]; lia.
Qed.

(** X6: a primitive that is not culled (and, for a surface, is a good one)
    always issues at least one call, so the renderer it returns differs from
    the one it was given. *)
Theorem visible_primitive_reaches_the_interface (r : renderer) (p : primitive) :
  drawable p = true ->
  rectangle_off_screen r (bounding_rectangle p) = false ->
  exists r', draw r p = Some r' /\ (calls_issued r < calls_issued r')%nat /\ r' <> r.
Proof.
  intros D Off. exists (screen_calls r (to_screen r) p).
  split; [apply draw_as_screen_calls; assumption|].
  pose proof (screen_calls_issue r (to_screen r) p) as L.
  split; [exact L|]. intros C. rewrite C in L. lia.
Qed.

Lemma visible_primitive_reaches_the_interface_witness :
  drawable (Line (pt 10 10) (pt 20 20)) = true /\
  rectangle_off_screen sample_renderer
    (bounding_rectangle (Line (pt 10 10) (pt 20 20))) = false /\
  exists r', draw sample_renderer (Line (pt 10 10) (pt 20 20)) = Some r' /\
             (calls_issued sample_renderer < calls_issued r')%nat /\
             r' <> sample_renderer.
Proof.
  assert (O : rectangle_off_screen sample_renderer
                (bounding_rectangle (Line (pt 10 10) (pt 20 20))) = false)
    by (vm_compute; reflexivity).
  split; [reflexivity|]. split; [exact O|].
  apply visible_primitive_reaches_the_interface; [reflexivity | exact O].
Defined.

(** ** Save and restore *)

Lemma save_depth_app (l1 l2 : list Cairo.call) (d : nat) :
  save_depth (l1 ++ l2) d =
  match save_depth l1 d with
  | Some d' => save_depth l2 d'
  | None => None
  end.
Proof.
  revert d. induction l1 as [|c l1 IH]; intros d; [reflexivity|].
  destruct c; cbn [app save_depth]; auto.
  destruct d; auto.
Qed.

Lemma save_depth_line_to (l : list point2d) (d : nat) :
  save_depth (map (fun p => Cairo.cairo_line_to (x p) (y p)) l) d = Some d.
Proof. induction l; simpl; auto. Qed.

Lemma save_depth_on_cairo (l : list Cairo.call) (r : renderer) (d : nat) :
  (forall d', save_depth l d' = Some d') ->
  save_depth (m_cairo r) 0 = Some d ->
  save_depth (m_cairo (on_cairo l r)) 0 = Some d.
Proof.
  intros Hl H. cbn. rewrite save_depth_app, H. apply Hl.
Qed.

Lemma save_depth_on_x11 (l : list Xlib.call) (r : renderer) :
  m_cairo (on_x11 l r) = m_cairo r.
Proof. unfold on_x11. destruct (x11 r); reflexivity. Qed.

Lemma save_depth_screen_calls (r : renderer) (f : point2d -> point2d) (p : primitive)
    (d : nat) :
  save_depth (m_cairo r) 0 = Some d ->
  save_depth (m_cairo (screen_calls r f p)) 0 = Some d.
Proof.
  intros H.
  destruct p as [s e|s e fl|s w h fl|rect fl|p0 p1 rest|c rad sa ea fl|c rx ry sa ea fl|s tl];
    cbn [screen_calls];
    unfold line_calls, rectangle_calls, poly_calls, arc_calls, surface_calls;
    try (destruct (x11_opaque r); [rewrite save_depth_on_x11; exact H|]);
    apply save_depth_on_cairo; try exact H; intros d'.
  - reflexivity.
  - destruct fl; reflexivity.
  - destruct fl; reflexivity.
  - destruct fl; reflexivity.
  - cbn [save_depth]. rewrite save_depth_app, save_depth_line_to. reflexivity.
  - destruct fl, (pos_zero <=? ea)%dbl; reflexivity.
  - destruct fl, (pos_zero <=? ea)%dbl; reflexivity.
  - reflexivity.
Qed.

(** X7: every drawing function leaves the [cairo_save] nesting of the context
    as deep as it found it: each [cairo_save] it issues is undone by a
    [cairo_restore], never the other way round. *)
Theorem drawing_balances_save_and_restore (E : externals) (r r' : renderer)
    (p : primitive) (center : point2d) (text : string) (bound_x bound_y : double)
    (d : nat) :
  save_depth (m_cairo r) 0 = Some d ->
  (draw r p = Some r' -> save_depth (m_cairo r') 0 = Some d) /\
  save_depth (m_cairo (draw_text_bounded E r center text bound_x bound_y)) 0 = Some d.
Proof.
  intros H. split.
  - intros D. destruct (draw_cases r p) as [C|(_ & _ & C)]; rewrite C in D;
      injection D as <-; [exact H | apply save_depth_screen_calls, H].
  - rewrite draw_text_bounded_cases.
    destruct (text_off_screen _ _ _ _); [exact H|].
    destruct (text_exceeds_bounds _ _ _ _ _); [exact H|].
    apply save_depth_on_cairo; [intros d'; reflexivity | exact H].
Qed.

Lemma drawing_balances_save_and_restore_witness :
  save_depth (m_cairo sample_renderer) 0 = Some 0%nat /\
  draw sample_renderer (Arc (pt 50 50) (of_Z 10) pos_zero (of_Z 90) true)
  = Some (fill_arc sample_renderer (pt 50 50) (of_Z 10) pos_zero (of_Z 90)) /\
  save_depth
    (m_cairo (fill_arc sample_renderer (pt 50 50) (of_Z 10) pos_zero (of_Z 90))) 0
  = Some 0%nat.
Proof.
  split; [reflexivity|]. split; [reflexivity|].
  apply (proj1 (drawing_balances_save_and_restore sample_externals sample_renderer
                  (fill_arc sample_renderer (pt 50 50) (of_Z 10) pos_zero (of_Z 90))
                  (Arc (pt 50 50) (of_Z 10) pos_zero (of_Z 90) true)
                  (pt 0 0) "label" one one 0 eq_refl)).
  reflexivity.
Defined.

(** ** The X11 build *)

Lemma x11_opaque_on_cairo (l : list Cairo.call) (r : renderer) :
  x11_opaque (on_cairo l r) = x11_opaque r.
Proof. reflexivity. Qed.

Lemma screen_calls_opaque (r : renderer) (f : point2d -> point2d) (p : primitive) :
  x11_opaque r = true -> is_surface p = false ->
  m_cairo (screen_calls r f p) = m_cairo r.
Proof.
  intros X S. destruct p; try discriminate; cbn [screen_calls];
    unfold line_calls, rectangle_calls, poly_calls, arc_calls; rewrite X;
    apply save_depth_on_x11.
Qed.

Lemma screen_calls_translucent (r : renderer) (f : point2d -> point2d) (p : primitive) :
  x11_opaque r = false -> x11 (screen_calls r f p) = x11 r.
Proof.
  intros X. destruct p; cbn [screen_calls];
    unfold line_calls, rectangle_calls, poly_calls, arc_calls, surface_calls;
    rewrite ?X; reflexivity.
Qed.

Lemma x11_opaque_set_color (r : renderer) (xs : x11_members) (red green blue alpha : Z) :
  x11 r = Some xs ->
  x11_opaque (set_color_rgba r red green blue alpha) = (alpha =? 255).
Proof.
  intros X. unfold set_color_rgba. cbn [x11 on_cairo]. rewrite X.
  unfold x11_opaque. cbn. apply negb_involutive.
Qed.

(** X8: in the X11 build the alpha of the last [set_color] decides the
    interface: with alpha 255 a primitive other than a surface leaves the
    Cairo context untouched, with any other alpha it leaves the X11 members
    untouched. *)
Theorem opaque_colour_draws_with_xlib (r r0 r' : renderer) (xs : x11_members)
    (red green blue alpha : Z) (p : primitive) :
  x11 r = Some xs ->
  r0 = set_color_rgba r red green blue alpha ->
  draw r0 p = Some r' ->
  (alpha = 255 -> is_surface p = false -> m_cairo r' = m_cairo r0) /\
  (alpha <> 255 -> x11 r' = x11 r0).
Proof.
  intros X -> D.
  pose proof (x11_opaque_set_color r xs red green blue alpha X) as O.
  destruct (draw_cases (set_color_rgba r red green blue alpha) p) as [C|(_ & _ & C)];
    rewrite C in D; injection D as <-.
  - split; reflexivity.
  - split.
    + intros -> S. apply screen_calls_opaque; [exact O | exact S].
    + intros N. apply screen_calls_translucent. rewrite O. apply Z.eqb_neq, N.
Qed.

Lemma opaque_colour_draws_with_xlib_witness :
  x11 sample_x11_renderer = Some (mk_x11 [] true 1 butt none) /\
  draw (set_color_rgba sample_x11_renderer 255 0 0 255) (Line (pt 10 10) (pt 20 20))
  = Some (draw_line (set_color_rgba sample_x11_renderer 255 0 0 255)
            (pt 10 10) (pt 20 20)) /\
  m_cairo (draw_line (set_color_rgba sample_x11_renderer 255 0 0 255)
             (pt 10 10) (pt 20 20))
  = m_cairo (set_color_rgba sample_x11_renderer 255 0 0 255).
Proof.
  split; [reflexivity|]. split; [reflexivity|].
  apply (proj1 (opaque_colour_draws_with_xlib sample_x11_renderer
                  (set_color_rgba sample_x11_renderer 255 0 0 255)
                  (draw_line (set_color_rgba sample_x11_renderer 255 0 0 255)
                     (pt 10 10) (pt 20 20))
                  (mk_x11 [] true 1 butt none) 255 0 0 255
                  (Line (pt 10 10) (pt 20 20)) eq_refl eq_refl eq_refl));
    reflexivity.
Defined.

(** ** The calls of a polygon *)

(** X9: [fill_poly] fails its assertion exactly on fewer than two points; a
    polygon of n points that is drawn issues, through Cairo, one
    [cairo_move_to] to the first mapped point, n - 1 further calls, then
    [cairo_close_path] and [cairo_fill], or, through Xlib, one
    [XFillPolygon] of n points. *)
Theorem fill_poly_call_count (r : renderer) (points : list point2d) :
  (fill_poly r points = None <-> (List.length points < 2)%nat) /\
  (forall p0 p1 rest,
     points = p0 :: p1 :: rest ->
     rectangle_off_screen r (poly_clip_rectangle p0 (p1 :: rest)) = false ->
     exists r',
       fill_poly r points = Some r' /\
       (x11_opaque r = false ->
        m_cairo r'
        = m_cairo r
          ++ Cairo.cairo_move_to (x (to_screen r p0)) (y (to_screen r p0))
             :: map (fun p => Cairo.cairo_line_to (x (to_screen r p)) (y (to_screen r p)))
                  (p1 :: rest)
          ++ [Cairo.cairo_close_path; Cairo.cairo_fill] /\
        List.length (m_cairo r')
        = (List.length (m_cairo r) + List.length points + 2)%nat /\
        x11 r' = x11 r) /\
       (x11_opaque r = true ->
        exists pts,
          x11_calls r' = x11_calls r ++ [Xlib.XFillPolygon pts (List.length points)] /\
          List.length pts = List.length points /\
          m_cairo r' = m_cairo r)).
Proof.
  split.
  - destruct points as [|p0 [|p1 rest]]; cbn [fill_poly List.length].
    + split; [lia|reflexivity].
    + split; [lia|reflexivity].
    + split; [|lia]. destruct (rectangle_off_screen _ _); [discriminate|].
      destruct (x11_opaque r); discriminate.
  - intros p0 p1 rest -> Off. rewrite (fill_poly_calls r p0 p1 rest Off).
    eexists. split; [reflexivity|]. unfold poly_calls. split; intros X; rewrite X.
    + cbn [m_cairo on_cairo]. rewrite map_map. split; [reflexivity|].
      split; [|reflexivity].
      rewrite length_app. cbn [List.length]. rewrite length_app, !length_map.
      cbn [List.length]. lia.
    + unfold x11_opaque in X. unfold on_x11, x11_calls.
      destruct (x11 r) as [xs|]; [|discriminate]. cbn.
      eexists. split; [rewrite length_map; reflexivity|].
      split; [|reflexivity]. cbn. rewrite !length_map. reflexivity.
Qed.

Lemma fill_poly_call_count_witness :
  fill_poly sample_renderer [pt 10 10] = None /\
  rectangle_off_screen sample_renderer
    (poly_clip_rectangle (pt 10 10) [pt 20 10; pt 15 20]) = false /\
  exists r',
    fill_poly sample_renderer [pt 10 10; pt 20 10; pt 15 20] = Some r' /\
    List.length (m_cairo r') = 5%nat.
Proof.
  assert (O : rectangle_off_screen sample_renderer
                (poly_clip_rectangle (pt 10 10) [pt 20 10; pt 15 20]) = false)
    by (vm_compute; reflexivity).
  split.
  - apply (proj1 (fill_poly_call_count sample_renderer [pt 10 10])). cbn. lia.
  - split; [exact O|].
    destruct (proj2 (fill_poly_call_count sample_renderer
                       [pt 10 10; pt 20 10; pt 15 20])
                _ _ _ eq_refl O) as (r' & E & C & _).
    exists r'. split; [exact E|].
    destruct (C eq_refl) as (_ & L & _). exact L.
Defined.

(** ** Line attributes in the X11 build *)

Lemma gc_line_style_snoc (l : list Xlib.call) (c : Xlib.call) :
  gc_line_style (l ++ [c]) =
  match c with
  | Xlib.XSetLineAttributes w dashed round_cap => Some (w, dashed, round_cap)
  | _ => gc_line_style l
  end.
Proof. unfold gc_line_style. rewrite fold_left_app. destruct c; reflexivity. Qed.

Lemma in_sync_on_cairo (l : list Cairo.call) (r : renderer) :
  line_style_in_sync r -> line_style_in_sync (on_cairo l r).
Proof. intros H; exact H. Qed.

Lemma in_sync_on_x11 (c : Xlib.call) (r : renderer) :
  match c with Xlib.XSetLineAttributes _ _ _ => False | _ => True end ->
  line_style_in_sync r -> line_style_in_sync (on_x11 [c] r).
Proof.
  intros Hc H. unfold line_style_in_sync, on_x11 in *.
  destruct (x11 r) as [xs|] eqn:X; [|rewrite X; exact I].
  cbn [x11 with_x11 x11_context].
  rewrite gc_line_style_snoc. destruct c; try exact H; contradiction.
Qed.

Lemma in_sync_screen_calls (r : renderer) (f : point2d -> point2d) (p : primitive) :
  line_style_in_sync r -> line_style_in_sync (screen_calls r f p).
Proof.
  intros H.
  destruct p as [s e|s e fl|s w h fl|rect fl|p0 p1 rest|c rad sa ea fl|c rx ry sa ea fl|s tl];
    cbn [screen_calls];
    unfold line_calls, rectangle_calls, poly_calls, arc_calls, surface_calls;
    try (destruct (x11_opaque r));
    first [ apply in_sync_on_cairo; exact H
          | apply in_sync_on_x11; [try destruct fl; exact I | exact H] ].
Qed.

Lemma to_unsigned_int_small (n : Z) :
  0 <= n <= 2147483647 -> to_unsigned_int n = n.
Proof. intros H. unfold to_unsigned_int. apply Z.mod_small. lia. Qed.

Lemma to_unsigned_int_negative (n : Z) : n < 0 -> to_unsigned_int n <> n.
Proof.
  intros H. unfold to_unsigned_int.
  pose proof (Z.mod_pos_bound n 4294967296 ltac:(lia)). lia.
Qed.

Lemma in_sync_setters (r : renderer) :
  (forall w, 0 <= w <= 2147483647 -> line_style_in_sync (set_line_width r w)) /\
  (forall cap, line_width_fits r -> line_style_in_sync (set_line_cap r cap)) /\
  (forall dash, line_width_fits r -> line_style_in_sync (set_line_dash r dash)).
Proof.
  repeat split; intros v F;
    unfold set_line_width, set_line_cap, set_line_dash, line_style_in_sync,
      line_width_fits, on_x11 in *;
    try (destruct v); cbn [x11 on_cairo];
    (destruct (x11 r) as [xs|] eqn:X; [|cbn [x11 on_cairo]; rewrite ?X; exact I]);
    cbn [x11 with_x11 x11_context]; rewrite gc_line_style_snoc;
    unfold x11_line_attributes, member_line_style;
    cbn [current_line_width current_line_cap current_line_dash];
    rewrite to_unsigned_int_small by exact F; reflexivity.
Qed.

Lemma set_line_width_gc (r : renderer) (xs : x11_members) (w : Z) :
  x11 r = Some xs ->
  exists xs',
    x11 (set_line_width r w) = Some xs' /\
    current_line_width xs' = w /\
    current_line_cap xs' = current_line_cap xs /\
    current_line_dash xs' = current_line_dash xs /\
    gc_line_style (x11_context xs')
    = Some (to_unsigned_int w,
            match current_line_dash xs with none => false | asymmetric_5_3 => true end,
            match current_line_cap xs with butt => false | round => true end).
Proof.
  intros X. unfold set_line_width, on_x11. cbn [x11 on_cairo]. rewrite X.
  cbn [x11 with_x11 x11_context]. eexists. split; [reflexivity|].
  cbn [current_line_width current_line_cap current_line_dash x11_context].
  rewrite gc_line_style_snoc. repeat split; reflexivity.
Qed.

(** X10: in the X11 build [set_line_width] hands Xlib its [int] width
    converted to [unsigned int].  For a width that is not negative the line
    style last given to Xlib equals the one the members hold, after
    [set_line_width] and, when the stored width is not negative, after
    [set_line_cap] and [set_line_dash]; [set_color] and the drawing functions
    keep it so.  For a negative width Xlib holds [2^32 + width] while the
    member holds [width], and the two disagree. *)
Theorem xlib_line_style_follows_the_members (E : externals) (r r' : renderer)
    (w red green blue alpha : Z) (cap : line_cap) (dash : line_dash) (p : primitive)
    (center : point2d) (text : string) (bound_x bound_y : double) :
  (0 <= w <= 2147483647 ->
   line_style_in_sync (set_line_width r w) /\ line_width_fits (set_line_width r w)) /\
  (line_width_fits r ->
   line_style_in_sync (set_line_cap r cap) /\
   line_style_in_sync (set_line_dash r dash)) /\
  (forall xs, x11 r = Some xs ->
     exists xs',
       x11 (set_line_width r w) = Some xs' /\
       current_line_width xs' = w /\
       gc_line_style (x11_context xs')
       = Some (w mod 4294967296,
               match current_line_dash xs with none => false | asymmetric_5_3 => true end,
               match current_line_cap xs with butt => false | round => true end)) /\
  (w < 0 -> x11 r <> None -> ~ line_style_in_sync (set_line_width r w)) /\
  (line_style_in_sync r ->
   line_style_in_sync (set_color_rgba r red green blue alpha) /\
   line_style_in_sync (draw_text_bounded E r center text bound_x bound_y) /\
   (draw r p = Some r' -> line_style_in_sync r')).
Proof.
  destruct (in_sync_setters r) as (S1 & S2 & S3).
  split; [|split; [auto|split; [|split]]].
  - intros Hw. split; [auto|].
    unfold line_width_fits. destruct (x11 r) as [xs|] eqn:X.
    + destruct (set_line_width_gc r xs w X) as (xs' & -> & -> & _). exact Hw.
    + unfold set_line_width. cbn [x11 on_cairo]. rewrite X. cbn [x11 on_cairo].
      rewrite X. exact I.
  - intros xs X. destruct (set_line_width_gc r xs w X) as (xs' & A & B & _ & _ & G).
    exists xs'. auto.
  - intros Hw X. destruct (x11 r) as [xs|] eqn:Xr; [|congruence].
    destruct (set_line_width_gc r xs w Xr) as (xs' & A & B & C & D & G).
    unfold line_style_in_sync. rewrite A, G. unfold member_line_style.
    rewrite B. intros Q. injection Q as Q _ _.
    exact (to_unsigned_int_negative w Hw Q).
  - intros H. split; [|split].
    + unfold set_color_rgba, line_style_in_sync in *. cbn [x11 on_cairo].
      destruct (x11 r) as [xs|] eqn:X; [|cbn [x11 on_cairo]; rewrite X; exact I].
      cbn [x11 with_x11 x11_context]. rewrite gc_line_style_snoc. exact H.
    + rewrite draw_text_bounded_cases.
      destruct (text_off_screen _ _ _ _); [exact H|].
      destruct (text_exceeds_bounds _ _ _ _ _); exact H.
    + intros D. destruct (draw_cases r p) as [C|(_ & _ & C)]; rewrite C in D;
        injection D as <-; [exact H|apply in_sync_screen_calls, H].
Qed.

Lemma xlib_line_style_follows_the_members_witness :
  line_style_in_sync (set_line_width sample_x11_renderer 3) /\
  line_style_in_sync
    (set_line_cap (set_line_width sample_x11_renderer 3) round) /\
  line_style_in_sync
    (set_color_rgba (set_line_width sample_x11_renderer 3) 0 128 255 255) /\
  ~ line_style_in_sync (set_line_width sample_x11_renderer (-2)).
Proof.
  pose proof (xlib_line_style_follows_the_members sample_externals
                sample_x11_renderer sample_x11_renderer 3 0 0 0 0 butt none
                (Line (pt 0 0) (pt 1 1)) (pt 0 0) "label" one one) as (H & _).
  destruct (H ltac:(lia)) as [S F].
  pose proof (xlib_line_style_follows_the_members sample_externals
                (set_line_width sample_x11_renderer 3) sample_x11_renderer
                3 0 128 255 255 round none (Line (pt 0 0) (pt 1 1)) (pt 0 0)
                "label" one one) as (_ & K & _ & _ & P).
  pose proof (xlib_line_style_follows_the_members sample_externals
                sample_x11_renderer sample_x11_renderer (-2) 0 0 0 0 butt none
                (Line (pt 0 0) (pt 1 1)) (pt 0 0) "label" one one)
    as (_ & _ & _ & N & _).
  split; [exact S|]. split; [exact (proj1 (K F))|]. split; [exact (proj1 (P S))|].
  apply N; [lia | discriminate].
Defined.

(** ** The X11 pixel of a colour *)

Lemma byte_cases (P : Z -> bool) :
  forallb (fun n => P (Z.of_nat n)) (seq 0 256) = true ->
  forall c, 0 <= c < 256 -> P c = true.
Proof.
  intros H c Hc. rewrite forallb_forall in H.
  rewrite <- (Z2Nat.id c) by lia. apply H, in_seq. lia.
Qed.

Lemma replicated_byte_masks (c : Z) :
  0 <= c < 256 ->
  Z.land (Z.lor (Z.lor (Z.shiftl c 16) (Z.shiftl c 8)) c) 16711680 = c * 65536 /\
  Z.land (Z.lor (Z.lor (Z.shiftl c 16) (Z.shiftl c 8)) c) 65280 = c * 256 /\
  Z.land (Z.lor (Z.lor (Z.shiftl c 16) (Z.shiftl c 8)) c) 255 = c.
Proof.
  intros Hc.
  pose proof (byte_cases
    (fun c => let t := Z.lor (Z.lor (Z.shiftl c 16) (Z.shiftl c 8)) c in
              (Z.land t 16711680 =? c * 65536) && (Z.land t 65280 =? c * 256)
              && (Z.land t 255 =? c)) ltac:(vm_compute; reflexivity) c Hc) as H.
  cbv zeta in H. rewrite !andb_true_iff, !Z.eqb_eq in H. tauto.
Qed.

Lemma lor_shiftl_small (a b k : Z) :
  0 <= k -> 0 <= b < 2 ^ k -> Z.lor (Z.shiftl a k) b = Z.shiftl a k + b.
Proof.
  intros Hk Hb.
  assert (L : Z.land (Z.shiftl a k) b = 0).
  { apply Z.bits_inj'. intros n Hn. rewrite Z.land_spec, Z.bits_0.
    destruct (Z.lt_ge_cases n k) as [Hlt|Hge].
    - rewrite Z.shiftl_spec_low by assumption. reflexivity.
    - assert (Z.testbit b n = false); [|rewrite H; apply andb_false_r].
      destruct (Z.eq_dec b 0) as [->|Hnz]; [apply Z.bits_0|].
      apply Z.bits_above_log2; [lia|].
      assert (Z.log2 b < k) by (apply Z.log2_lt_pow2; lia). lia. }
  rewrite <- Z.lxor_lor by assumption. symmetry. apply Z.add_nocarry_lxor, L.
Qed.

Lemma packed_pixel (red green blue : Z) :
  0 <= red < 256 -> 0 <= green < 256 -> 0 <= blue < 256 ->
  Z.lor (Z.lor (Z.lor (Z.lor 0 (red * 65536)) (green * 256)) blue) 4278190080
  = 4278190080 + 65536 * red + 256 * green + blue.
Proof.
  intros Hr Hg Hb. rewrite Z.lor_0_l.
  replace (red * 65536) with (Z.shiftl red 16) by (rewrite Z.shiftl_mul_pow2; lia).
  rewrite (lor_shiftl_small red (green * 256) 16) by lia.
  rewrite Z.shiftl_mul_pow2 by lia.
  replace (red * 2 ^ 16 + green * 256) with (Z.shiftl (red * 256 + green) 8)
    by (rewrite Z.shiftl_mul_pow2; lia).
  rewrite (lor_shiftl_small _ blue 8) by lia.
  rewrite Z.shiftl_mul_pow2 by lia.
  rewrite Z.lor_comm.
  change 4278190080 with (Z.shiftl 255 24).
  rewrite lor_shiftl_small by lia.
  rewrite Z.shiftl_mul_pow2 by lia. lia.
Qed.

(** X11: for components in 0..255, [set_color] gives Xlib the pixel
    [0xFF000000 + 65536 * red + 256 * green + blue], sets the transparency
    flag exactly when alpha is not 255, and gives Cairo the four components
    divided by 255. *)
Theorem set_color_pixel (r : renderer) (xs : x11_members) (red green blue alpha : Z) :
  x11 r = Some xs ->
  0 <= red < 256 -> 0 <= green < 256 -> 0 <= blue < 256 ->
  x11 (set_color_rgba r red green blue alpha)
  = Some (mk_x11
            (x11_context xs
             ++ [Xlib.XSetForeground (4278190080 + 65536 * red + 256 * green + blue)])
            (negb (alpha =? 255)) (current_line_width xs) (current_line_cap xs)
            (current_line_dash xs)) /\
  m_cairo (set_color_rgba r red green blue alpha)
  = m_cairo r ++ [Cairo.cairo_set_source_rgba (of_Z red / d255) (of_Z green / d255)
                    (of_Z blue / d255) (of_Z alpha / d255)].
Proof.
  intros X Hr Hg Hb. unfold set_color_rgba. cbn [x11 on_cairo]. rewrite X.
  cbn [x11 m_cairo with_x11].
  destruct (replicated_byte_masks red Hr) as (-> & _ & _).
  destruct (replicated_byte_masks green Hg) as (_ & -> & _).
  destruct (replicated_byte_masks blue Hb) as (_ & _ & ->).
  rewrite packed_pixel by assumption. split; reflexivity.
Qed.

Lemma set_color_pixel_witness :
  x11 sample_x11_renderer = Some (mk_x11 [] true 1 butt none) /\
  0 <= 255 < 256 /\ 0 <= 128 < 256 /\ 0 <= 0 < 256 /\
  x11 (set_color_rgba sample_x11_renderer 255 128 0 64)
  = Some (mk_x11 [Xlib.XSetForeground 4294934528] true 1 butt none).
Proof.
  split; [reflexivity|]. split; [lia|]. split; [lia|]. split; [lia|].
  rewrite (proj1 (set_color_pixel sample_x11_renderer (mk_x11 [] true 1 butt none)
                    255 128 0 64 eq_refl ltac:(lia) ltac:(lia) ltac:(lia))).
  reflexivity.
Defined.

Lemma same_view_on_cairo (l : list Cairo.call) (r : renderer) :
  same_view r (on_cairo l r).
Proof. repeat split. Qed.

Lemma same_view_on_x11 (l : list Xlib.call) (r : renderer) :
  same_view r (on_x11 l r).
Proof. unfold on_x11. destruct (x11 r); repeat split. Qed.

Lemma same_view_with_x11 (xs : x11_members) (r : renderer) :
  same_view r (with_x11 xs r).
Proof. repeat split. Qed.

Lemma same_view_trans (r1 r2 r3 : renderer) :
  same_view r1 r2 -> same_view r2 r3 -> same_view r1 r3.
Proof.
  intros (A1 & A2 & A3) (B1 & B2 & B3). repeat split; congruence.
Qed.

Lemma same_view_setters (r : renderer) :
  (forall red green blue alpha, same_view r (set_color_rgba r red green blue alpha)) /\
  (forall cap, same_view r (set_line_cap r cap)) /\
  (forall dash, same_view r (set_line_dash r dash)) /\
  (forall w, same_view r (set_line_width r w)) /\
  (forall size, same_view r (set_font_size r size)) /\
  (forall family slant weight, same_view r (format_font r family slant weight)) /\
  (forall family slant weight size,
     same_view r (format_font_size r family slant weight size)) /\
  (forall degrees, same_view r (set_text_rotation r degrees)).
Proof.
  repeat split;
    unfold set_color_rgba, set_line_cap, set_line_dash, set_line_width;
    try match goal with |- context [match ?d with none => _ | asymmetric_5_3 => _ end] =>
          destruct d end;
    cbn [x11 on_cairo]; destruct (x11 r); reflexivity.
Qed.

Lemma same_view_culling (r r' : renderer) (rect : rectangle) (p : point2d) :
  same_view r r' ->
  rectangle_off_screen r' rect = rectangle_off_screen r rect /\
  get_visible_world r' = get_visible_world r /\
  to_screen r' p = to_screen r p.
Proof.
  intros (T & C & S).
  unfold rectangle_off_screen, get_visible_world, to_screen.
  rewrite T, C, S. repeat split.
Qed.

(** X12: no style setter (colour, line cap, dash and width, font, text
    rotation) changes what is culled, the visible world, or where a point
    lands on the screen. *)
Theorem style_setters_leave_the_view (r : renderer) (c : color) (alpha w : Z)
    (cap : line_cap) (dash : line_dash) (size degrees : double) (family : string)
    (slant : font_slant) (weight : font_weight) (r' : renderer) (rect : rectangle)
    (p : point2d) :
  In r' [set_color r c; set_color_alpha r c alpha; set_line_cap r cap;
         set_line_dash r dash; set_line_width r w; set_font_size r size;
         format_font r family slant weight;
         format_font_size r family slant weight size;
         set_text_rotation r degrees] ->
  rectangle_off_screen r' rect = rectangle_off_screen r rect /\
  get_visible_world r' = get_visible_world r /\
  to_screen r' p = to_screen r p.
Proof.
  intros H. apply same_view_culling.
  destruct (same_view_setters r) as (S1 & S2 & S3 & S4 & S5 & S6 & S7 & S8).
  cbn [In] in H.
  repeat (destruct H as [<-|H]; [solve [auto | apply S1]|]).
  destruct H.
Qed.

Lemma style_setters_leave_the_view_witness :
  rectangle_off_screen (set_line_width sample_renderer 3)
    (mk_rect (pt 200 200) (pt 300 300))
  = rectangle_off_screen sample_renderer (mk_rect (pt 200 200) (pt 300 300)) /\
  to_screen (set_line_width sample_renderer 3) (pt 10 10)
  = to_screen sample_renderer (pt 10 10).
Proof.
  pose proof (style_setters_leave_the_view sample_renderer (mk_color 0 0 0 255) 255 3
                butt none one one "monospace" slant_normal weight_normal
                (set_line_width sample_renderer 3)
                (mk_rect (pt 200 200) (pt 300 300)) (pt 10 10)) as H.
  destruct H as (H1 & _ & H2).
  - cbn [In]. do 4 right. left. reflexivity.
  - split; [exact H1 | exact H2].
Defined.

(** ** Equality of rectangles *)

Lemma eqb_sym (a b : double) : eqb a b = eqb b a.
Proof.
  unfold eqb, SFeqb. rewrite (SFcompare_antisym b a).
  destruct (SFcompare b a) as [[| |]|]; reflexivity.
Qed.

Lemma eqb_refl_iff (a : double) : eqb a a = true <-> is_nan a = false.
Proof.
  split.
  - destruct a; simpl; auto; discriminate.
  - intros H. unfold eqb, SFeqb. rewrite SFcompare_refl by assumption. reflexivity.
Qed.

Lemma eqb_same (a b : double) : eqb a b = true -> same_number a b.
Proof.
  unfold eqb, SFeqb. destruct (SFcompare a b) as [[| |]|] eqn:C; try discriminate.
  intros _. apply SFcompare_Eq_same, C.
Qed.

Lemma point_eqb_sym (p q : point2d) : point_eqb p q = point_eqb q p.
Proof. unfold point_eqb. rewrite (eqb_sym (x p)), (eqb_sym (y p)). reflexivity. Qed.

Lemma rectangle_eqb_sym (r rhs : rectangle) : rectangle_eqb r rhs = rectangle_eqb rhs r.
Proof.
  unfold rectangle_eqb.
  rewrite (point_eqb_sym (m_first r)), (point_eqb_sym (m_second r)). reflexivity.
Qed.

Lemma point_eqb_refl_iff (p : point2d) : point_eqb p p = true <-> no_nan p = true.
Proof.
  unfold point_eqb, no_nan. rewrite !andb_true_iff, !negb_true_iff, !eqb_refl_iff.
  reflexivity.
Qed.

(** X13: [operator!=] is the negation of [operator==], [operator==] is
    symmetric, and a rectangle equals itself exactly when none of its
    coordinates is NaN. *)
Theorem rectangle_equality_laws (r rhs : rectangle) :
  rectangle_neqb r rhs = negb (rectangle_eqb r rhs) /\
  rectangle_eqb r rhs = rectangle_eqb rhs r /\
  (rectangle_eqb r r = true <->
   no_nan (m_first r) = true /\ no_nan (m_second r) = true).
Proof.
  split; [|split].
  - unfold rectangle_neqb. rewrite rectangle_eqb_sym. reflexivity.
  - apply rectangle_eqb_sym.
  - unfold rectangle_eqb. rewrite andb_true_iff, !point_eqb_refl_iff. reflexivity.
Qed.

Lemma same_number_sym (a b : double) : same_number a b -> same_number b a.
Proof. intros [->|[H1 H2]]; [left|right]; auto. Qed.

Lemma same_number_ltb (a a' b b' : double) :
  same_number a a' -> same_number b b' -> ltb a b = ltb a' b'.
Proof.
  intros Ha Hb. unfold ltb, SFltb.
  rewrite (same_number_compare_l a a' b Ha), (same_number_compare_r b b' a' Hb).
  reflexivity.
Qed.

Lemma std_min_same (a a' b b' : double) :
  same_number a a' -> same_number b b' ->
  same_number (std_min a b) (std_min a' b').
Proof.
  intros Ha Hb. unfold std_min. rewrite (same_number_ltb b b' a a' Hb Ha).
  destruct (ltb b' a'); assumption.
Qed.

Lemma std_max_same (a a' b b' : double) :
  same_number a a' -> same_number b b' ->
  same_number (std_max a b) (std_max a' b').
Proof.
  intros Ha Hb. unfold std_max. rewrite (same_number_ltb a a' b b' Ha Hb).
  destruct (ltb a' b'); assumption.
Qed.

Lemma same_number_zero_l (a a' : double) :
  same_number a a' -> a = a' \/ exists s s', a = S754_zero s /\ a' = S754_zero s'.
Proof.
  intros [->|[H1 H2]]; [left; reflexivity|right].
  destruct a, a'; try discriminate. eauto.
Qed.

Lemma sub_same (a a' b b' : double) :
  same_number a a' -> same_number b b' -> same_number (a - b) (a' - b').
Proof.
  intros Ha Hb.
  destruct (same_number_zero_l _ _ Ha) as [->|(sa & sa' & -> & ->)];
    destruct (same_number_zero_l _ _ Hb) as [->|(sb & sb' & -> & ->)].
  - left; reflexivity.
  - destruct a' as [s|s| |s m e]; try (left; reflexivity).
    right. destruct s, sb, sb'; split; reflexivity.
  - destruct b' as [s|s| |s m e]; try (left; reflexivity).
    right. destruct s, sa, sa'; split; reflexivity.
  - right. destruct sa, sa', sb, sb'; split; reflexivity.
Qed.

Lemma add_same (a a' b b' : double) :
  same_number a a' -> same_number b b' -> same_number (a + b) (a' + b').
Proof.
  intros Ha Hb.
  destruct (same_number_zero_l _ _ Ha) as [->|(sa & sa' & -> & ->)];
    destruct (same_number_zero_l _ _ Hb) as [->|(sb & sb' & -> & ->)].
  - left; reflexivity.
  - destruct a' as [s|s| |s m e]; try (left; reflexivity).
    right. destruct s, sb, sb'; split; reflexivity.
  - destruct b' as [s|s| |s m e]; try (left; reflexivity).
    right. destruct s, sa, sa'; split; reflexivity.
  - right. destruct sa, sa', sb, sb'; split; reflexivity.
Qed.

Lemma mul_same (a a' b b' : double) :
  same_number a a' -> same_number b b' -> same_number (a * b) (a' * b').
Proof.
  intros Ha Hb.
  destruct (same_number_zero_l _ _ Ha) as [->|(sa & sa' & -> & ->)];
    destruct (same_number_zero_l _ _ Hb) as [->|(sb & sb' & -> & ->)].
  - left; reflexivity.
  - destruct a' as [s|s| |s m e]; try (left; reflexivity);
      right; split; reflexivity.
  - destruct b' as [s|s| |s m e]; try (left; reflexivity);
      right; split; reflexivity.
  - right. split; reflexivity.
Qed.

Lemma rectangle_eqb_coordinates (r rhs : rectangle) :
  rectangle_eqb r rhs = true ->
  same_number (x (m_first r)) (x (m_first rhs)) /\
  same_number (y (m_first r)) (y (m_first rhs)) /\
  same_number (x (m_second r)) (x (m_second rhs)) /\
  same_number (y (m_second r)) (y (m_second rhs)).
Proof.
  unfold rectangle_eqb, point_eqb. rewrite !andb_true_iff.
  intros [[H1 H2] [H3 H4]]. auto using eqb_same.
Qed.

(** X14: rectangles that compare equal under [operator==] have the same
    edges, width, height, area and centre, up to the sign of a zero, and
    contain the same points. *)
Theorem equal_rectangles_are_the_same_shape (r rhs : rectangle) (px py : double) :
  rectangle_eqb r rhs = true ->
  (same_number (left r) (left rhs) /\ same_number (right r) (right rhs) /\
   same_number (bottom r) (bottom rhs) /\ same_number (top r) (top rhs)) /\
  (same_number (width r) (width rhs) /\ same_number (height r) (height rhs) /\
   same_number (area r) (area rhs)) /\
  (same_number (centre_x r) (centre_x rhs) /\ same_number (centre_y r) (centre_y rhs)) /\
  contains r px py = contains rhs px py.
Proof.
  intros H. destruct (rectangle_eqb_coordinates r rhs H) as (H1 & H2 & H3 & H4).
  assert (L : same_number (left r) (left rhs)) by (apply std_min_same; assumption).
  assert (R : same_number (right r) (right rhs)) by (apply std_max_same; assumption).
  assert (B : same_number (bottom r) (bottom rhs)) by (apply std_min_same; assumption).
  assert (T : same_number (top r) (top rhs)) by (apply std_max_same; assumption).
  assert (W : same_number (width r) (width rhs)) by (apply sub_same; assumption).
  assert (Hh : same_number (height r) (height rhs)) by (apply sub_same; assumption).
  split; [auto|].
  split; [split; [exact W|split; [exact Hh|apply mul_same; assumption]]|].
  split.
  - split; (apply mul_same; [apply add_same; assumption | apply same_number_refl]).
  - rewrite !contains_unfold.
    rewrite (same_number_ltb px px _ _ (same_number_refl px) L),
      (same_number_ltb _ _ px px R (same_number_refl px)),
      (same_number_ltb py py _ _ (same_number_refl py) B),
      (same_number_ltb _ _ py py T (same_number_refl py)).
    reflexivity.
Qed.

Lemma equal_rectangles_are_the_same_shape_witness :
  rectangle_eqb (mk_rect (mk_point pos_zero one) (pt 2 2))
    (mk_rect (mk_point neg_zero one) (pt 2 2)) = true /\
  contains (mk_rect (mk_point pos_zero one) (pt 2 2)) one two
  = contains (mk_rect (mk_point neg_zero one) (pt 2 2)) one two /\
  same_number (left (mk_rect (mk_point pos_zero one) (pt 2 2)))
    (left (mk_rect (mk_point neg_zero one) (pt 2 2))).
Proof.
  pose proof (equal_rectangles_are_the_same_shape
                (mk_rect (mk_point pos_zero one) (pt 2 2))
                (mk_rect (mk_point neg_zero one) (pt 2 2)) one two eq_refl)
    as ((H1 & _) & _ & _ & H2).
  split; [reflexivity|]. split; [exact H2 | exact H1].
Defined.

(** ** A camera without margins *)

Lemma std_min_of_min_max (a b : double) :
  std_min (std_min a b) (std_max a b) = std_min a b.
Proof.
  destruct (std_min_max_order a b) as [H|[-> ->]].
  - unfold std_min at 1. rewrite (ltb_asym _ _ H). reflexivity.
  - unfold std_min. destruct (ltb a a); reflexivity.
Qed.

Lemma std_max_of_min_max (a b : double) :
  std_max (std_min a b) (std_max a b) = std_max a b.
Proof.
  destruct (std_min_max_order a b) as [H|[-> ->]].
  - unfold std_max at 1. rewrite H. reflexivity.
  - unfold std_max. destruct (ltb a a); reflexivity.
Qed.

Lemma zero_margin (z s : double) :
  is_zero z = true -> is_finite s = true -> is_zero (z * s) = true.
Proof. destruct z, s; try discriminate; reflexivity. Qed.

Lemma sub_zero_same (a z : double) : is_zero z = true -> same_number (a - z) a.
Proof.
  destruct z as [sz| | |]; try discriminate. intros _.
  destruct a as [s|s| |s m e]; try (left; reflexivity).
  right. destruct s, sz; split; reflexivity.
Qed.

Lemma add_zero_same (a z : double) : is_zero z = true -> same_number (a + z) a.
Proof.
  destruct z as [sz| | |]; try discriminate. intros _.
  destruct a as [s|s| |s m e]; try (left; reflexivity).
  right. destruct s, sz; split; reflexivity.
Qed.

Lemma same_number_eq_r (a b c : double) : same_number a b -> b = c -> same_number a c.
Proof. intros H <-. exact H. Qed.

(** X15: when the left and bottom edges of the screen rectangle are zero and
    the world scale factor is finite, the visible world has the edges of the
    camera's world (up to the sign of a zero). *)
Theorem visible_world_without_margin (r : renderer) :
  is_zero (left (get_screen (m_camera r))) = true ->
  is_zero (bottom (get_screen (m_camera r))) = true ->
  is_finite (x (get_world_scale_factor (m_camera r))) = true ->
  is_finite (y (get_world_scale_factor (m_camera r))) = true ->
  same_number (left (get_visible_world r)) (left (get_world (m_camera r))) /\
  same_number (right (get_visible_world r)) (right (get_world (m_camera r))) /\
  same_number (bottom (get_visible_world r)) (bottom (get_world (m_camera r))) /\
  same_number (top (get_visible_world r)) (top (get_world (m_camera r))).
Proof.
  intros Zl Zb Fx Fy.
  pose proof (zero_margin _ _ Zl Fx) as Mx.
  pose proof (zero_margin _ _ Zb Fy) as My.
  unfold get_visible_world, rectangle_of_points, point_sub, point_add, point_mul,
    bottom_left, top_right.
  unfold left at 1, right at 1, bottom at 1, top at 1. cbn [m_first m_second x y].
  repeat split.
  - eapply same_number_eq_r; [|apply std_min_of_min_max].
    apply std_min_same; [apply sub_zero_same|apply add_zero_same]; assumption.
  - eapply same_number_eq_r; [|apply std_max_of_min_max].
    apply std_max_same; [apply sub_zero_same|apply add_zero_same]; assumption.
  - eapply same_number_eq_r; [|apply std_min_of_min_max].
    apply std_min_same; [apply sub_zero_same|apply add_zero_same]; assumption.
  - eapply same_number_eq_r; [|apply std_max_of_min_max].
    apply std_max_same; [apply sub_zero_same|apply add_zero_same]; assumption.
Qed.

Lemma visible_world_without_margin_witness :
  is_zero (left (get_screen (m_camera sample_renderer))) = true /\
  is_zero (bottom (get_screen (m_camera sample_renderer))) = true /\
  is_finite (x (get_world_scale_factor (m_camera sample_renderer))) = true /\
  is_finite (y (get_world_scale_factor (m_camera sample_renderer))) = true /\
  same_number (right (get_visible_world sample_renderer))
    (right (get_world (m_camera sample_renderer))).
Proof.
  do 4 (split; [reflexivity|]).
  exact (proj1 (proj2 (visible_world_without_margin sample_renderer
                         eq_refl eq_refl eq_refl eq_refl))).
Defined.

Lemma log_calls (c : Gtk.call) (g : Gtk.state) :
  Gtk.calls (Gtk.log c g) = Gtk.calls g ++ [c].
Proof. reflexivity. Qed.

Lemma redraw_result (c : canvas) (g : Gtk.state) :
  redraw c g =
  Gtk.mk_state (Gtk.window_of g) (Gtk.allocated_size g) (S (Gtk.next_pointer g))
    (Gtk.live_surfaces g)
    (List.remove Nat.eq_dec (Gtk.next_pointer g)
       (Gtk.next_pointer g :: Gtk.live_contexts g))
    (Gtk.calls g
     ++ [Gtk.cairo_create (m_surface c) (Gtk.next_pointer g);
         Gtk.draw_callback (m_draw_callback c) (Gtk.next_pointer g);
         Gtk.cairo_destroy (Gtk.next_pointer g);
         Gtk.gtk_widget_queue_draw (m_drawing_area c);
         Gtk.g_info "The canvas will be redrawn."]).
Proof.
  unfold redraw, Gtk.new_context, Gtk.destroy_context, Gtk.log. cbn.
  rewrite <- !app_assoc. reflexivity.
Qed.

Lemma create_surface_result (widget : nat) (g : Gtk.state) :
  create_surface widget g =
  (Gtk.next_pointer g,
   Gtk.mk_state (Gtk.window_of g) (Gtk.allocated_size g) (S (Gtk.next_pointer g))
     (Gtk.next_pointer g :: Gtk.live_surfaces g) (Gtk.live_contexts g)
     (Gtk.calls g
      ++ [Gtk.gtk_widget_get_window widget;
          Gtk.gtk_widget_get_allocated_width widget;
          Gtk.gtk_widget_get_allocated_height widget;
          Gtk.gdk_window_create_similar_surface (Gtk.window_of g widget)
            (fst (Gtk.allocated_size g widget)) (snd (Gtk.allocated_size g widget))
            (Gtk.next_pointer g)])).
Proof.
  unfold create_surface, Gtk.new_surface, Gtk.log. cbn.
  rewrite <- !app_assoc. reflexivity.
Qed.

Lemma remove_fresh (p : nat) (l : list nat) :
  ~ In p l -> List.remove Nat.eq_dec p (p :: l) = l.
Proof.
  intros H. cbn. destruct (Nat.eq_dec p p) as [_|N]; [|congruence].
  apply notin_remove, H.
Qed.

Lemma next_pointer_fresh (g : Gtk.state) :
  pointers_below_next g ->
  ~ In (Gtk.next_pointer g) (Gtk.live_surfaces g) /\
  ~ In (Gtk.next_pointer g) (Gtk.live_contexts g).
Proof.
  intros H. split; intros C.
  - specialize (H _ (or_introl C)). lia.
  - specialize (H _ (or_intror C)). lia.
Qed.

Lemma destroyed_surfaces_app (l1 l2 : list Gtk.call) :
  destroyed_surfaces (l1 ++ l2) = destroyed_surfaces l1 ++ destroyed_surfaces l2.
Proof. apply flat_map_app. Qed.

Lemma callback_runs_app (l1 l2 : list Gtk.call) :
  callback_runs (l1 ++ l2) = callback_runs l1 ++ callback_runs l2.
Proof. apply flat_map_app. Qed.

(** What a configure event does to a canvas, in one piece. *)
Lemma configure_event_result (widget : nat) (c : canvas) (g : Gtk.state) :
  pointers_below_next g ->
  exists g',
    configure_event widget (Some c) g
    = (true,
       Some (mk_canvas (m_canvas_id c) (m_draw_callback c) (m_drawing_area c)
               (Some (Gtk.next_pointer g))),
       g') /\
    Gtk.live_surfaces g' = Gtk.next_pointer g :: Gtk.live_surfaces g /\
    Gtk.live_contexts g' = Gtk.live_contexts g /\
    Gtk.next_pointer g' = S (S (Gtk.next_pointer g)) /\
    destroyed_surfaces (Gtk.calls g') = destroyed_surfaces (Gtk.calls g) /\
    callback_runs (Gtk.calls g')
    = callback_runs (Gtk.calls g) ++ [(m_draw_callback c, S (Gtk.next_pointer g))] /\
    In (Gtk.cairo_create (Some (Gtk.next_pointer g)) (S (Gtk.next_pointer g)))
       (Gtk.calls g').
Proof.
  intros W. destruct (next_pointer_fresh g W) as [Fs Fc].
  assert (R : List.remove Nat.eq_dec (S (Gtk.next_pointer g))
                (S (Gtk.next_pointer g) :: Gtk.live_contexts g)
              = Gtk.live_contexts g).
  { apply remove_fresh. intros C. specialize (W _ (or_intror C)). lia. }
  unfold configure_event.
  destruct (m_surface c) as [s|]; rewrite create_surface_result, redraw_result;
    cbn [m_surface m_draw_callback m_drawing_area Gtk.next_pointer Gtk.live_surfaces
         Gtk.live_contexts Gtk.calls Gtk.window_of Gtk.allocated_size
         Gtk.destroy_surface Gtk.log];
    (eexists; split; [reflexivity|]);
    cbn [Gtk.next_pointer Gtk.live_surfaces Gtk.live_contexts Gtk.calls Gtk.log];
    rewrite R, !destroyed_surfaces_app, !callback_runs_app; cbn [destroyed_surfaces
      callback_runs flat_map app]; rewrite ?app_nil_r;
    repeat (split; [reflexivity|]);
    rewrite !in_app_iff; left; right; left; reflexivity.
Qed.

Lemma initialize_result (c : canvas) (area : nat) (g : Gtk.state) :
  pointers_below_next g ->
  exists g',
    initialize c (Some area) g
    = (mk_canvas (m_canvas_id c) (m_draw_callback c) (Some area)
         (Some (Gtk.next_pointer g)), g') /\
    Gtk.live_surfaces g' = Gtk.next_pointer g :: Gtk.live_surfaces g /\
    Gtk.live_contexts g' = Gtk.live_contexts g /\
    Gtk.next_pointer g' = S (S (Gtk.next_pointer g)) /\
    destroyed_surfaces (Gtk.calls g') = destroyed_surfaces (Gtk.calls g) /\
    callback_runs (Gtk.calls g')
    = callback_runs (Gtk.calls g) ++ [(m_draw_callback c, S (Gtk.next_pointer g))] /\
    (exists before after,
       Gtk.calls g'
       = before
         ++ [Gtk.draw_callback (m_draw_callback c) (S (Gtk.next_pointer g))]
         ++ after /\
       In (Gtk.g_signal_connect area "configure-event" Gtk.configure_event_handler
             (m_canvas_id c)) after /\
       In (Gtk.g_signal_connect area "draw" Gtk.draw_surface_handler (m_canvas_id c))
          after /\
       In (Gtk.gtk_widget_add_events area Gtk.GDK_BUTTON_PRESS_MASK) after /\
       In (Gtk.gtk_widget_add_events area Gtk.GDK_BUTTON_RELEASE_MASK) after).
Proof.
  intros W.
  assert (R : List.remove Nat.eq_dec (S (Gtk.next_pointer g))
                (S (Gtk.next_pointer g) :: Gtk.live_contexts g)
              = Gtk.live_contexts g).
  { apply remove_fresh. intros C. specialize (W _ (or_intror C)). lia. }
  unfold initialize. rewrite create_surface_result, redraw_result.
  cbn [m_surface m_draw_callback m_drawing_area m_canvas_id Gtk.next_pointer
       Gtk.live_surfaces Gtk.live_contexts Gtk.calls Gtk.window_of
       Gtk.allocated_size Gtk.log].
  eexists; split; [reflexivity|].
  cbn [Gtk.next_pointer Gtk.live_surfaces Gtk.live_contexts Gtk.calls Gtk.log].
  rewrite R, !destroyed_surfaces_app, !callback_runs_app.
  cbn [destroyed_surfaces callback_runs flat_map app]. rewrite ?app_nil_r.
  repeat (split; [reflexivity|]).
  exists (Gtk.calls g
          ++ [Gtk.gtk_widget_get_window area;
              Gtk.gtk_widget_get_allocated_width area;
              Gtk.gtk_widget_get_allocated_height area;
              Gtk.gdk_window_create_similar_surface (Gtk.window_of g area)
                (fst (Gtk.allocated_size g area)) (snd (Gtk.allocated_size g area))
                (Gtk.next_pointer g);
              Gtk.cairo_create (Some (Gtk.next_pointer g)) (S (Gtk.next_pointer g))]).
  exists [Gtk.cairo_destroy (S (Gtk.next_pointer g));
          Gtk.gtk_widget_queue_draw (Some area);
          Gtk.g_info "The canvas will be redrawn.";
          Gtk.g_signal_connect area "configure-event" Gtk.configure_event_handler
            (m_canvas_id c);
          Gtk.g_signal_connect area "draw" Gtk.draw_surface_handler (m_canvas_id c);
          Gtk.gtk_widget_add_events area Gtk.GDK_BUTTON_PRESS_MASK;
          Gtk.gtk_widget_add_events area Gtk.GDK_BUTTON_RELEASE_MASK;
          Gtk.g_info "canvas::initialize successful."].
  split.
  - rewrite <- !app_assoc. reflexivity.
  - cbn [In]. repeat split; auto 10.
Qed.

Lemma pointers_below_next_grow (g g' : Gtk.state) (s : nat) :
  pointers_below_next g ->
  Gtk.live_surfaces g' = s :: Gtk.live_surfaces g ->
  Gtk.live_contexts g' = Gtk.live_contexts g ->
  (s < Gtk.next_pointer g')%nat ->
  (Gtk.next_pointer g <= Gtk.next_pointer g')%nat ->
  pointers_below_next g'.
Proof.
  intros W Es Ec Hs Hn p. rewrite Es, Ec. cbn [In].
  intros [[<-|H]|H]; [lia| |]; [specialize (W p (or_introl H))|
                               specialize (W p (or_intror H))]; lia.
Qed.

(** X16: a configure event on a canvas that holds a surface gives the canvas
    a new surface and destroys none: the surface held before stays alive,
    and [cairo_surface_destroy] is not called on it. *)
Theorem configure_event_never_releases_a_surface (widget : nat) (c : canvas)
    (s : nat) (g : Gtk.state) :
  pointers_below_next g ->
  m_surface c = Some s -> In s (Gtk.live_surfaces g) ->
  exists c' g',
    configure_event widget (Some c) g = (true, Some c', g') /\
    m_surface c' = Some (Gtk.next_pointer g) /\
    Gtk.next_pointer g <> s /\
    Gtk.live_surfaces g' = Gtk.next_pointer g :: Gtk.live_surfaces g /\
    In s (Gtk.live_surfaces g') /\
    destroyed_surfaces (Gtk.calls g') = destroyed_surfaces (Gtk.calls g) /\
    pointers_below_next g'.
Proof.
  intros W Ms Hs.
  destruct (configure_event_result widget c g W) as (g' & E & Ls & Lc & Np & D & _).
  eexists _, g'. split; [exact E|]. split; [reflexivity|].
  split; [specialize (W s (or_introl Hs)); lia|].
  split; [exact Ls|]. split; [rewrite Ls; right; exact Hs|]. split; [exact D|].
  apply (pointers_below_next_grow g g' _ W Ls Lc); lia.
Qed.

Lemma sample_gtk_pointers : pointers_below_next sample_gtk.
Proof. intros p [[<-|[]]|[]]; cbn; lia. Defined.

Lemma configure_event_never_releases_a_surface_witness :
  pointers_below_next sample_gtk /\
  m_surface sample_canvas = Some 3%nat /\ In 3%nat (Gtk.live_surfaces sample_gtk) /\
  exists c' g',
    configure_event 1 (Some sample_canvas) sample_gtk = (true, Some c', g') /\
    m_surface c' = Some 5%nat /\
    Gtk.live_surfaces g' = [5%nat; 3%nat] /\
    destroyed_surfaces (Gtk.calls g') = [].
Proof.
  split; [exact sample_gtk_pointers|]. split; [reflexivity|].
  split; [left; reflexivity|].
  destruct (configure_event_never_releases_a_surface 1 sample_canvas 3 sample_gtk
              sample_gtk_pointers eq_refl (or_introl eq_refl))
    as (c' & g' & E & M & _ & L & _ & D & _).
  exists c', g'. split; [exact E|]. split; [exact M|]. split; [exact L | exact D].
Defined.

(** X17: [initialize] on a drawing area gives the canvas that area and a live
    surface, which [canvas::draw_surface] assumes; [redraw] and
    [configure_event] keep it so; [initialize] on a null area changes nothing
    of the canvas, and a canvas that was never initialised has no surface to
    paint. *)
Theorem canvas_is_ready_once_initialized (c : canvas) (area widget context : nat)
    (g : Gtk.state) :
  pointers_below_next g ->
  (let '(c1, g1) := initialize c (Some area) g in
   m_drawing_area c1 = Some area /\ ready c1 g1 /\ pointers_below_next g1 /\
   canvas_draw_surface context (Some c1) g1 <> None) /\
  (ready c g ->
   ready c (redraw c g) /\
   exists c2 g2,
     configure_event widget (Some c) g = (true, Some c2, g2) /\
     ready c2 g2 /\ canvas_draw_surface context (Some c2) g2 <> None) /\
  initialize c None g
  = (c, Gtk.log (Gtk.g_return_if_fail_warning "drawing_area != nullptr") g) /\
  canvas_draw_surface context (Some (canvas_new (m_canvas_id c) (m_draw_callback c))) g
  = None.
Proof.
  intros W. split; [|split; [|split; reflexivity]].
  - destruct (initialize_result c area g W) as (g' & E & Ls & Lc & Np & _).
    rewrite E. split; [reflexivity|]. split; [|split].
    + split; [discriminate|]. eexists. split; [reflexivity|]. rewrite Ls. left. reflexivity.
    + apply (pointers_below_next_grow g g' _ W Ls Lc); lia.
    + discriminate.
  - intros (A & s & Ms & Hs). split.
    + split; [exact A|]. exists s. split; [exact Ms|].
      rewrite redraw_result. exact Hs.
    + destruct (configure_event_result widget c g W) as (g' & E & Ls & _).
      eexists _, g'. split; [exact E|]. split.
      * split; [exact A|]. eexists. split; [reflexivity|]. rewrite Ls. left. reflexivity.
      * discriminate.
Qed.

Lemma canvas_is_ready_once_initialized_witness :
  pointers_below_next sample_gtk /\
  ready sample_canvas sample_gtk /\
  ready sample_canvas (redraw sample_canvas sample_gtk) /\
  ready (fst (initialize (canvas_new "MainCanvas" 7) (Some 1%nat) sample_gtk))
    (snd (initialize (canvas_new "MainCanvas" 7) (Some 1%nat) sample_gtk)).
Proof.
  assert (R : ready sample_canvas sample_gtk).
  { split; [discriminate|]. exists 3%nat. split; [reflexivity | left; reflexivity]. }
  pose proof (canvas_is_ready_once_initialized sample_canvas 1 1 9 sample_gtk
                sample_gtk_pointers) as (_ & H & _).
  pose proof (canvas_is_ready_once_initialized (canvas_new "MainCanvas" 7) 1 1 9
                sample_gtk sample_gtk_pointers) as (I & _).
  split; [exact sample_gtk_pointers|]. split; [exact R|].
  split; [exact (proj1 (H R))|].
  destruct (initialize (canvas_new "MainCanvas" 7) (Some 1%nat) sample_gtk) as [c1 g1].
  exact (proj1 (proj2 I)).
Defined.

Lemma initialize_creates_context (c : canvas) (area : nat) (g : Gtk.state) :
  In (Gtk.cairo_create (Some (Gtk.next_pointer g)) (S (Gtk.next_pointer g)))
     (Gtk.calls (snd (initialize c (Some area) g))).
Proof.
  unfold initialize. rewrite create_surface_result, redraw_result.
  cbn [snd m_surface m_draw_callback m_drawing_area m_canvas_id Gtk.next_pointer
       Gtk.live_surfaces Gtk.live_contexts Gtk.calls Gtk.window_of
       Gtk.allocated_size Gtk.log].
  rewrite !in_app_iff. cbn [In]. auto 12.
Qed.

(** X18: [redraw], a handled configure event and a successful [initialize]
    each run the draw callback exactly once, on a context created for the
    purpose from the surface of the canvas and destroyed afterwards; the
    refused calls (null data, null area) do not run it. *)
Theorem every_redraw_runs_the_callback_once (widget area : nat) (c : canvas)
    (g : Gtk.state) :
  pointers_below_next g ->
  (Gtk.live_contexts (redraw c g) = Gtk.live_contexts g /\
   Gtk.live_surfaces (redraw c g) = Gtk.live_surfaces g /\
   callback_runs (Gtk.calls (redraw c g))
   = callback_runs (Gtk.calls g) ++ [(m_draw_callback c, Gtk.next_pointer g)] /\
   In (Gtk.cairo_create (m_surface c) (Gtk.next_pointer g)) (Gtk.calls (redraw c g))) /\
  (exists c' g',
     configure_event widget (Some c) g = (true, Some c', g') /\
     Gtk.live_contexts g' = Gtk.live_contexts g /\
     callback_runs (Gtk.calls g')
     = callback_runs (Gtk.calls g) ++ [(m_draw_callback c, S (Gtk.next_pointer g))] /\
     In (Gtk.cairo_create (m_surface c') (S (Gtk.next_pointer g))) (Gtk.calls g')) /\
  (exists c' g',
     initialize c (Some area) g = (c', g') /\
     Gtk.live_contexts g' = Gtk.live_contexts g /\
     callback_runs (Gtk.calls g')
     = callback_runs (Gtk.calls g) ++ [(m_draw_callback c, S (Gtk.next_pointer g))] /\
     m_surface c' = Some (Gtk.next_pointer g) /\
     In (Gtk.cairo_create (m_surface c') (S (Gtk.next_pointer g))) (Gtk.calls g')) /\
  callback_runs (Gtk.calls (snd (configure_event widget None g)))
  = callback_runs (Gtk.calls g) /\
  callback_runs (Gtk.calls (snd (initialize c None g))) = callback_runs (Gtk.calls g).
Proof.
  intros W. destruct (next_pointer_fresh g W) as [_ Fc].
  split; [|split; [|split; [|split]]].
  - rewrite redraw_result. cbn [Gtk.live_contexts Gtk.live_surfaces Gtk.calls].
    rewrite (remove_fresh _ _ Fc), callback_runs_app. cbn [callback_runs flat_map app].
    repeat (split; [reflexivity|]). rewrite in_app_iff. right. left. reflexivity.
  - destruct (configure_event_result widget c g W) as (g' & E & _ & Lc & _ & _ & R & I).
    eexists _, g'. split; [exact E|]. repeat split; assumption.
  - destruct (initialize_result c area g W) as (g' & E & _ & Lc & _ & _ & R & _).
    eexists _, g'. split; [exact E|]. split; [exact Lc|]. split; [exact R|].
    split; [reflexivity|]. cbn [m_surface].
    pose proof (initialize_creates_context c area g) as K.
    rewrite E in K. exact K.
  - cbn. rewrite callback_runs_app. cbn. apply app_nil_r.
  - cbn. rewrite callback_runs_app. cbn. apply app_nil_r.
Qed.

Lemma every_redraw_runs_the_callback_once_witness :
  pointers_below_next sample_gtk /\
  callback_runs (Gtk.calls (redraw sample_canvas sample_gtk)) = [(7%nat, 5%nat)] /\
  Gtk.live_contexts (redraw sample_canvas sample_gtk) = [].
Proof.
  pose proof (every_redraw_runs_the_callback_once 1 1 sample_canvas sample_gtk
                sample_gtk_pointers) as ((H1 & _ & H2 & _) & _).
  split; [exact sample_gtk_pointers|]. split; [exact H2 | exact H1].
Defined.

(** ** Culling and containment *)

Lemma off_screen_cases (r : renderer) (rect : rectangle) :
  rectangle_off_screen r rect = true <->
  current_coordinate_system r = WORLD /\
  ((right rect <? left (get_visible_world r))%dbl = true \/
   (right (get_visible_world r) <? left rect)%dbl = true \/
   (top rect <? bottom (get_visible_world r))%dbl = true \/
   (top (get_visible_world r) <? bottom rect)%dbl = true).
Proof.
  unfold rectangle_off_screen, gtb, ltb.
  destruct (current_coordinate_system r); cbn [t_coordinate_system_eqb].
  - destruct (SFltb (right rect) (left (get_visible_world r))); [split; auto 6|].
    destruct (SFltb (right (get_visible_world r)) (left rect)); [split; auto 6|].
    destruct (SFltb (top rect) (bottom (get_visible_world r))); [split; auto 6|].
    destruct (SFltb (top (get_visible_world r)) (bottom rect)); [split; auto 6|].
    split; [discriminate|]. intros [_ [H|[H|[H|H]]]]; discriminate.
  - split; [discriminate|]. intros [H _]; discriminate.
Qed.

(** X19: culling is monotone: when a rectangle is off screen, so is every
    rectangle whose edges lie within its edges. *)
Theorem culling_is_monotone (r : renderer) (a b : rectangle) :
  inside a b ->
  rectangle_off_screen r b = true ->
  rectangle_off_screen r a = true.
Proof.
  intros (L & R & B & T). rewrite !off_screen_cases. intros [W H].
  split; [exact W|]. destruct H as [H|[H|[H|H]]].
  - left. eapply leb_ltb_trans; eassumption.
  - right; left. eapply ltb_leb_trans; eassumption.
  - right; right; left. eapply leb_ltb_trans; eassumption.
  - right; right; right. eapply ltb_leb_trans; eassumption.
Qed.

Lemma culling_is_monotone_witness :
  inside (mk_rect (pt 220 220) (pt 280 280)) (mk_rect (pt 200 200) (pt 300 300)) /\
  rectangle_off_screen sample_renderer (mk_rect (pt 200 200) (pt 300 300)) = true /\
  rectangle_off_screen sample_renderer (mk_rect (pt 220 220) (pt 280 280)) = true.
Proof.
  assert (I : inside (mk_rect (pt 220 220) (pt 280 280))
                (mk_rect (pt 200 200) (pt 300 300)))
    by (repeat split; vm_compute; reflexivity).
  assert (O : rectangle_off_screen sample_renderer
                (mk_rect (pt 200 200) (pt 300 300)) = true)
    by (vm_compute; reflexivity).
  split; [exact I|]. split; [exact O|].
  exact (culling_is_monotone sample_renderer _ _ I O).
Defined.

(** ** Moving a rectangle by nothing *)

Lemma add_zero_eqb (a z : double) :
  is_zero z = true -> is_nan a = false -> eqb (a + z) a = true.
Proof.
  intros Z N. apply same_number_eqb; [apply add_zero_same, Z|].
  destruct z as [sz| | |]; try discriminate.
  destruct a as [s|s| |s m e]; try discriminate; try reflexivity.
  destruct s, sz; reflexivity.
Qed.

Lemma rectangle_eqb_contains (r rhs : rectangle) (px py : double) :
  rectangle_eqb r rhs = true -> contains r px py = contains rhs px py.
Proof.
  intros E. destruct (rectangle_eqb_coordinates _ _ E) as (C1 & C2 & C3 & C4).
  rewrite !contains_unfold. unfold left, right, bottom, top.
  rewrite (same_number_ltb px px _ _ (same_number_refl px) (std_min_same _ _ _ _ C1 C3)),
    (same_number_ltb _ _ px px (std_max_same _ _ _ _ C1 C3) (same_number_refl px)),
    (same_number_ltb py py _ _ (same_number_refl py) (std_min_same _ _ _ _ C2 C4)),
    (same_number_ltb _ _ py py (std_max_same _ _ _ _ C2 C4) (same_number_refl py)).
  reflexivity.
Qed.

(** X20: moving a rectangle (without NaN coordinates) by zeros of either sign
    gives a rectangle that compares equal to it and contains the same
    points. *)
Theorem offset_by_zero (r : rectangle) (zx zy : double) (px py : double) :
  is_zero zx = true -> is_zero zy = true ->
  no_nan (m_first r) = true -> no_nan (m_second r) = true ->
  rectangle_eqb (offset r zx zy) r = true /\
  contains (offset r zx zy) px py = contains r px py.
Proof.
  intros Zx Zy H1 H2.
  assert (E : rectangle_eqb (offset r zx zy) r = true).
  { apply no_nan_inv in H1, H2. destruct H1, H2.
    unfold rectangle_eqb, point_eqb, offset, point_offset. cbn [m_first m_second x y].
    rewrite !add_zero_eqb by assumption. reflexivity. }
  split; [exact E | apply rectangle_eqb_contains, E].
Qed.

Lemma offset_by_zero_witness :
  is_zero neg_zero = true /\ is_zero pos_zero = true /\
  no_nan (m_first (mk_rect (pt 1 1) (pt 3 2))) = true /\
  no_nan (m_second (mk_rect (pt 1 1) (pt 3 2))) = true /\
  rectangle_eqb (offset (mk_rect (pt 1 1) (pt 3 2)) neg_zero pos_zero)
    (mk_rect (pt 1 1) (pt 3 2)) = true.
Proof.
  do 4 (split; [reflexivity|]).
  exact (proj1 (offset_by_zero (mk_rect (pt 1 1) (pt 3 2)) neg_zero pos_zero one one
                  eq_refl eq_refl eq_refl eq_refl)).
Defined.

(** ** Turning text the other way *)

Lemma binary_round_aux_negb (s : bool) (m e : Z) (l : location) :
  binary_round_aux prec emax (negb s) m e l = opp (binary_round_aux prec emax s m e l).
Proof.
  unfold binary_round_aux.
  destruct (shr_fexp prec emax m e l) as [mrs' e'].
  destruct (shr_fexp prec emax _ e' loc_Exact) as [mrs'' e''].
  destruct (shr_m mrs''); try reflexivity.
  destruct (e'' <=? _); reflexivity.
Qed.

Lemma mul_opp_l (a b : double) : (- a * b = - (a * b))%dbl.
Proof.
  destruct a as [sa|sa| |sa ma ea], b as [sb|sb| |sb mb eb]; try reflexivity;
    try (destruct sa, sb; reflexivity).
  cbn [opp SFopp mul SFmul].
  replace (xorb (negb sa) sb) with (negb (xorb sa sb)) by (destruct sa, sb; reflexivity).
  apply binary_round_aux_negb.
Qed.

Lemma div_opp_l (a b : double) : (- a / b = - (a / b))%dbl.
Proof.
  destruct a as [sa|sa| |sa ma ea], b as [sb|sb| |sb mb eb]; try reflexivity;
    try (destruct sa, sb; reflexivity).
  cbn [opp SFopp div SFdiv].
  destruct (SFdiv_core_binary prec emax (Z.pos ma) ea (Z.pos mb) eb) as [[mz ez] lz].
  replace (xorb (negb sa) sb) with (negb (xorb sa sb)) by (destruct sa, sb; reflexivity).
  apply binary_round_aux_negb.
Qed.

Lemma opp_involutive (a : double) : (- - a)%dbl = a.
Proof. destruct a as [s|s| |s m e]; try reflexivity; destruct s; reflexivity. Qed.

(** X21: [set_text_rotation] is odd: the angle stored for [-degrees] is
    exactly the opposite of the angle stored for [degrees], which is the
    opposite of [degrees * M_PI / 180]. *)
Theorem text_rotation_is_odd (r : renderer) (degrees : double) :
  rotation_angle (set_text_rotation r (- degrees))
  = (- rotation_angle (set_text_rotation r degrees))%dbl /\
  rotation_angle (set_text_rotation r degrees) = (- (degrees * M_PI / d180))%dbl.
Proof.
  cbn [rotation_angle set_text_rotation].
  rewrite !mul_opp_l, !div_opp_l. split; reflexivity.
Qed.

(** ** Configure events in a row *)

Lemma configure_events_result (n : nat) (widget : nat) (c : canvas) (g : Gtk.state) :
  pointers_below_next g ->
  exists c' g',
    configure_events n widget (Some c) g = (Some c', g') /\
    pointers_below_next g' /\
    List.length (Gtk.live_surfaces g') = (List.length (Gtk.live_surfaces g) + n)%nat /\
    (forall s, In s (Gtk.live_surfaces g) -> In s (Gtk.live_surfaces g')) /\
    destroyed_surfaces (Gtk.calls g') = destroyed_surfaces (Gtk.calls g) /\
    List.length (callback_runs (Gtk.calls g'))
    = (List.length (callback_runs (Gtk.calls g)) + n)%nat /\
    Gtk.live_contexts g' = Gtk.live_contexts g /\
    (n <> 0%nat -> exists s, m_surface c' = Some s /\ In s (Gtk.live_surfaces g')).
Proof.
  revert c g. induction n as [|n IH]; intros c g W.
  - exists c, g. cbn [configure_events].
    rewrite !Nat.add_0_r. repeat split; auto. intros N; congruence.
  - destruct (configure_event_result widget c g W)
      as (g1 & E & Ls & Lc & Np & D & R & _).
    assert (W1 : pointers_below_next g1)
      by (apply (pointers_below_next_grow g g1 _ W Ls Lc); lia).
    cbn [configure_events]. rewrite E.
    destruct (IH (mk_canvas (m_canvas_id c) (m_draw_callback c) (m_drawing_area c)
                    (Some (Gtk.next_pointer g))) g1 W1) as (c' & g' & E' & W' & Len & Keep & D' & R' & C' & M').
    exists c', g'. split; [exact E'|]. split; [exact W'|].
    split; [rewrite Len, Ls; cbn [List.length]; lia|].
    split; [intros s Hs; apply Keep; rewrite Ls; right; exact Hs|].
    split; [congruence|].
    split; [rewrite R', R, length_app; cbn [List.length]; lia|].
    split; [congruence|].
    intros _. destruct n as [|n'].
    + cbn [configure_events] in E'. injection E' as <- <-.
      eexists. split; [reflexivity|]. rewrite Ls. left. reflexivity.
    + apply M'. discriminate.
Qed.

(** X22: after [n] configure events in a row the windowing state holds [n]
    more live surfaces, every surface alive before is still alive, no surface
    was destroyed, the draw callback has run [n] more times and no context
    is left alive. *)
Theorem surfaces_pile_up_with_configure_events (n : nat) (widget : nat) (c : canvas)
    (g : Gtk.state) :
  pointers_below_next g ->
  exists c' g',
    configure_events n widget (Some c) g = (Some c', g') /\
    List.length (Gtk.live_surfaces g') = (List.length (Gtk.live_surfaces g) + n)%nat /\
    (forall s, In s (Gtk.live_surfaces g) -> In s (Gtk.live_surfaces g')) /\
    destroyed_surfaces (Gtk.calls g') = destroyed_surfaces (Gtk.calls g) /\
    List.length (callback_runs (Gtk.calls g'))
    = (List.length (callback_runs (Gtk.calls g)) + n)%nat /\
    Gtk.live_contexts g' = Gtk.live_contexts g.
Proof.
  intros W.
  destruct (configure_events_result n widget c g W)
    as (c' & g' & E & _ & L & K & D & R & C & _).
  exists c', g'. auto 10.
Qed.

Lemma surfaces_pile_up_with_configure_events_witness :
  pointers_below_next sample_gtk /\
  exists c' g',
    configure_events 3 1 (Some sample_canvas) sample_gtk = (Some c', g') /\
    List.length (Gtk.live_surfaces g') = 4%nat /\
    destroyed_surfaces (Gtk.calls g') = [].
Proof.
  split; [exact sample_gtk_pointers|].
  destruct (surfaces_pile_up_with_configure_events 3 1 sample_canvas sample_gtk
              sample_gtk_pointers) as (c' & g' & E & L & _ & D & _).
  exists c', g'. split; [exact E|]. split; [exact L | exact D].
Defined.


(** ** Text centred outside its bounds *)

Lemma binary_normalize_nonpos (m e : Z) :
  m <= 0 -> not_positive (binary_normalize prec emax m e false).
Proof.
  intros H. pose proof (binary_normalize_not_nan m e false) as N.
  destruct m as [|p|p]; try lia; [reflexivity|].
  cbn [binary_normalize] in *.
  pose proof (binary_round_sign true p e) as S.
  destruct (binary_round prec emax true p e) as [s|s| |s m' e'];
    cbn in S, N; subst; try discriminate; reflexivity.
Qed.

Lemma sub_lt_not_positive (a b : double) :
  valid a = true -> valid b = true ->
  is_finite a = true -> is_finite b = true ->
  ltb a b = true -> not_positive (a - b).
Proof.
  unfold ltb, SFltb. intros Va Vb Fa Fb H.
  destruct (SFcompare a b) as [[| |]|] eqn:C; try discriminate. clear H.
  destruct a as [sa|sa| |sa ma ea], b as [sb|sb| |sb mb eb]; try discriminate.
  - destruct sb; try discriminate; reflexivity.
  - destruct sa; try discriminate; reflexivity.
  - cbn [sub SFsub]. apply binary_normalize_nonpos.
    pose proof (aligned_diff_nonneg sb sa mb ma eb ea Vb Va C) as D.
    rewrite (Z.min_comm eb ea) in D. lia.
Qed.

Lemma not_positive_min_l (u v : double) :
  not_positive u -> is_nan v = false -> not_positive (std_min u v).
Proof.
  unfold not_positive, std_min. intros U N.
  destruct (v <? u)%dbl eqn:L; [|exact U].
  apply ltb_leb. eapply ltb_leb_trans; eassumption.
Qed.

Lemma not_positive_min_r (u v : double) :
  is_nan u = false -> not_positive v -> not_positive (std_min u v).
Proof.
  unfold not_positive, std_min. intros N V.
  destruct (v <? u)%dbl eqn:L; [exact V|].
  destruct (leb_not_nan _ _ V) as [Nv _].
  eapply leb_trans; [|exact V]. apply not_ltb_leb; assumption.
Qed.

Lemma not_positive_twice (m : double) : not_positive m -> not_positive (m * two).
Proof.
  unfold not_positive. destruct m as [s|s| |s m e]; try discriminate.
  - intros _. destruct s; reflexivity.
  - destruct s; [reflexivity|discriminate].
  - destruct s; [|discriminate]. intros _.
    unfold two. cbn [mul SFmul xorb].
    pose proof (binary_round_aux_sign true
                  (Z.pos (m * 4503599627370496)) (e + -51) loc_Exact) as S.
    pose proof (binary_round_aux_not_nan true
                  (Z.pos (m * 4503599627370496)) (e + -51) loc_Exact
                  ltac:(lia)) as N.
    destruct (binary_round_aux prec emax true _ _ loc_Exact) as [s'|s'| |s' m' e'];
      cbn in S, N; subst; try discriminate; reflexivity.
Qed.

Lemma above_not_positive (bound sw : double) :
  not_positive bound -> ltb pos_zero sw = true -> (sw >? bound)%dbl = true.
Proof. unfold gtb. intros B S. eapply leb_ltb_trans; eassumption. Qed.

Lemma finite_not_nan (a : double) : is_finite a = true -> is_nan a = false.
Proof. destruct a; try discriminate; reflexivity. Qed.

Lemma narrow_bound (c lo hi : double) :
  valid c = true -> valid lo = true -> valid hi = true ->
  is_finite c = true -> is_finite lo = true -> is_finite hi = true ->
  ltb c lo = true \/ ltb hi c = true ->
  not_positive (std_min (c - lo) (hi - c) * two).
Proof.
  intros Vc Vl Vh Fc Fl Fh H. apply not_positive_twice.
  destruct H as [H|H].
  - apply not_positive_min_l; [apply sub_lt_not_positive; assumption|].
    apply sub_finite_not_nan; assumption.
  - apply not_positive_min_r; [apply sub_finite_not_nan; assumption|].
    apply sub_lt_not_positive; assumption.
Qed.

(** X23: text whose centre lies outside its bounding rectangle along an axis,
    and whose scaled extent along that axis is positive, is not drawn by the
    rectangle-bounded [draw_text]: the bound computed for that axis is zero,
    negative or minus infinity. *)
Theorem text_centred_outside_its_bounds_is_not_drawn (E : externals) (r : renderer)
    (center : point2d) (text : string) (bounds : rectangle) :
  binary64_point center = true -> finite_point center = true ->
  binary64_point (m_first bounds) = true -> finite_point (m_first bounds) = true ->
  binary64_point (m_second bounds) = true -> finite_point (m_second bounds) = true ->
  (((x center <? left bounds)%dbl = true \/ (right bounds <? x center)%dbl = true) /\
   (pos_zero <? scaled_width E r text)%dbl = true) \/
  (((y center <? bottom bounds)%dbl = true \/ (top bounds <? y center)%dbl = true) /\
   (pos_zero <? scaled_height E r text)%dbl = true) ->
  draw_text_in E r center text bounds = r.
Proof.
  unfold binary64_point, finite_point. rewrite !andb_true_iff.
  intros [Vcx Vcy] [Fcx Fcy] [V1x V1y] [F1x F1y] [V2x V2y] [F2x F2y] H.
  unfold draw_text_in. rewrite draw_text_bounded_cases.
  destruct (text_off_screen _ _ _ _); [reflexivity|].
  assert (X : text_exceeds_bounds E r text
                (std_min (x (point_sub center (bottom_left bounds)))
                   (x (point_sub (top_right bounds) center)) * two)
                (std_min (y (point_sub center (bottom_left bounds)))
                   (y (point_sub (top_right bounds) center)) * two) = true).
  { unfold text_exceeds_bounds. apply orb_true_iff.
    cbn [point_sub bottom_left top_right x y].
    destruct H as [[H S]|[H S]]; [left|right];
      (apply above_not_positive; [|exact S]); apply narrow_bound;
      try assumption; unfold left, right, bottom, top;
      auto using std_min_valid, std_max_valid, std_min_finite, std_max_finite. }
  rewrite X. reflexivity.
Qed.

Lemma text_centred_outside_its_bounds_is_not_drawn_witness :
  (x (pt 5 50) <? left (mk_rect (pt 10 10) (pt 60 60)))%dbl = true /\
  (pos_zero <? scaled_width sample_externals sample_renderer "label")%dbl = true /\
  draw_text_in sample_externals sample_renderer (pt 5 50) "label"
    (mk_rect (pt 10 10) (pt 60 60)) = sample_renderer.
Proof.
  assert (A : (x (pt 5 50) <? left (mk_rect (pt 10 10) (pt 60 60)))%dbl = true)
    by (vm_compute; reflexivity).
  assert (B : (pos_zero <? scaled_width sample_externals sample_renderer "label")%dbl
              = true) by (vm_compute; reflexivity).
  split; [exact A|]. split; [exact B|].
  apply text_centred_outside_its_bounds_is_not_drawn;
    [vm_compute; reflexivity ..|].
  left. split; [left; exact A | exact B].
Defined.

(** X24: [draw_png] leaves the renderer exactly as [draw_surface] of the
    loaded image does, whether the load succeeded or not; when it changes the
    renderer at all, the load succeeded and the two calls issued are
    [cairo_set_source_surface] of that image at the transformed corner, then
    [cairo_paint]. *)
Theorem draw_png_is_draw_surface_of_the_load (E : externals) (r : renderer)
    (file_path : string) (top_left : point2d) :
  draw_png E r file_path top_left
  = draw_surface r (cairo_image_surface_create_from_png E file_path) top_left /\
  (draw_png E r file_path top_left <> r ->
   Cairo.cairo_surface_status (cairo_image_surface_create_from_png E file_path)
   = Cairo.CAIRO_STATUS_SUCCESS /\
   m_cairo (draw_png E r file_path top_left)
   = m_cairo r
     ++ [Cairo.cairo_set_source_surface
           (cairo_image_surface_create_from_png E file_path)
           (x (to_screen r top_left)) (y (to_screen r top_left));
         Cairo.cairo_paint]).
Proof.
  assert (A : draw_png E r file_path top_left
              = draw_surface r (cairo_image_surface_create_from_png E file_path)
                  top_left).
  { unfold draw_png, draw_surface.
    destruct (negb _); reflexivity. }
  split; [exact A|]. rewrite A. unfold draw_surface.
  destruct (Cairo.cairo_surface_status _ =? Cairo.CAIRO_STATUS_SUCCESS) eqn:S;
    cbn [negb]; [|congruence].
  destruct (rectangle_off_screen r _); [congruence|].
  intros _. split; [apply Z.eqb_eq, S|]. rewrite world_flag. reflexivity.
Qed.

Lemma draw_png_is_draw_surface_of_the_load_witness :
  draw_png sample_externals sample_renderer "logo.png" (pt 10 50) <> sample_renderer /\
  m_cairo (draw_png sample_externals sample_renderer "logo.png" (pt 10 50))
  = [Cairo.cairo_set_source_surface sample_image (of_Z 20) (of_Z 100);
     Cairo.cairo_paint].
Proof.
  assert (N : draw_png sample_externals sample_renderer "logo.png" (pt 10 50)
              <> sample_renderer).
  { intros H. apply (f_equal m_cairo) in H. vm_compute in H. discriminate H. }
  split; [exact N|].
  destruct (draw_png_is_draw_surface_of_the_load sample_externals sample_renderer
              "logo.png" (pt 10 50)) as [_ H].
  destruct (H N) as [_ L]. rewrite L. vm_compute. reflexivity.
Defined.
